(** * timelapse.py: a shallow embedding of the timelapse daemon

    The Python program captures webcam frames into per-day directories,
    and at each change of date starts a background job that encodes the
    day's video, sends it, and merges it into a cumulative master video.

    Python's effects (file system, clock, camera, subprocesses, the
    Telegram transport, exceptions, thread start) are embedded as programs
    over a small instruction set ([Prog]); an interpreter runs a program
    against a world and an environment that answers for the external
    collaborators (camera, ffmpeg, clock). *)

From Stdlib Require Import ZArith QArith Ascii String Sorted.
From stdpp Require Import gmap strings list fin_maps pretty.

Local Open Scope Z_scope.

(** ** Text formatting: [f"{n:06d}"] and [date.isoformat()] *)

Module Fmt.

(** [k] copies of the character 0. *)
Fixpoint zeros (k : nat) : string :=
  match k with
  | O => EmptyString
  | S k' => String "0"%char (zeros k')
  end.

(** Python's format specification [0<width>d] on an integer: the decimal
    digits of the number, left-padded with zeros up to [width] characters,
    the sign (if any) first.  [width] is a minimum, never a truncation.
    [str(int)] is stdpp's [pretty]. *)
Definition format_0d (width : nat) (n : Z) : string :=
  let s := pretty (Z.abs_N n) in
  if n <? 0
  then "-" +:+ zeros (width - 1 - String.length s) +:+ s
  else zeros (width - String.length s) +:+ s.

(** The [w] least significant decimal digits of [n], most significant
    first, in front of [acc]. *)
Fixpoint fixed_go (w : nat) (n : N) (acc : string) : string :=
  match w with
  | O => acc
  | S w' => fixed_go w' (n `div` 10)%N (String (pretty_N_char (n `mod` 10)%N) acc)
  end.

Definition fixed (w : nat) (n : N) : string := fixed_go w n EmptyString.

(** Number of decimal digits of [n] (0 for 0), by halving fuel. *)
Fixpoint ndigits_go (fuel : nat) (n : N) : nat :=
  match fuel with
  | O => O
  | S fuel' => if decide (0 < n)%N then S (ndigits_go fuel' (n `div` 10)%N) else O
  end.

Definition ndigits (n : N) : nat := ndigits_go (S (N.size_nat n)) n.

End Fmt.

(** ** Calendar dates *)

(** [datetime.date]: year, month, day. *)
Record date := Date { year : Z; month : Z; day : Z }.

Global Instance date_eq_dec : EqDecision date.
Proof. solve_decision. Defined.

(** The ranges every [datetime.date] object satisfies. *)
Definition valid_date (d : date) : Prop :=
  1 <= year d <= 9999 /\ 1 <= month d <= 12 /\ 1 <= day d <= 31.

(** [date.isoformat()], i.e. ["%04d-%02d-%02d" % (year, month, day)]. *)
Definition isoformat (d : date) : string :=
  Fmt.format_0d 4 (year d) +:+ "-" +:+ Fmt.format_0d 2 (month d)
    +:+ "-" +:+ Fmt.format_0d 2 (day d).

(** Chronological order on dates. *)
Definition date_lt (a b : date) : Prop :=
  year a < year b \/
  (year a = year b /\ (month a < month b \/ (month a = month b /\ day a < day b))).

Definition date_le (a b : date) : Prop := a = b \/ date_lt a b.


(** ** Paths *)

(** A [pathlib.Path] as the list of its components; [p / name] appends one. *)
Abbreviation path := (list string).

Definition path_join (p : path) (name : string) : path := p ++ [name].
Infix "//" := path_join (at level 40, left associativity).

Module PurePath.

(** [s.rfind(c)]: index of the last occurrence of [c], if any. *)
Fixpoint rfind (c : ascii) (s : string) : option nat :=
  match s with
  | EmptyString => None
  | String a s' =>
      match rfind c s' with
      | Some i => Some (S i)
      | None => if Ascii.eqb a c then Some O else None
      end
  end.

(** [PurePath.suffix] of a file name: from the last dot on, unless the
    dot is the first or the last character. *)
Definition suffix (name : string) : string :=
  match rfind "."%char name with
  | Some i =>
      if (0 <? i)%nat && (i <? String.length name - 1)%nat
      then String.substring i (String.length name - i) name
      else EmptyString
  | None => EmptyString
  end.

(** The file name with its suffix exchanged (appended when it has none). *)
Definition with_suffix_name (name new_suffix : string) : string :=
  let old := suffix name in
  String.substring 0 (String.length name - String.length old) name +:+ new_suffix.

(** [Path.with_suffix]; every path of this program has a name. *)
Definition with_suffix (p : path) (new_suffix : string) : path :=
  match reverse p with
  | [] => []
  | name :: parents => reverse parents ++ [with_suffix_name name new_suffix]
  end.

End PurePath.

(** ** Configuration: the [DEFAULTS] dictionary *)

Record Config := {
  BASE_DIR : path;
  CAPTURE_INTERVAL_SECONDS : Z;
  FRAME_WIDTH : Z;
  FRAME_HEIGHT : Z;
  DAILY_FPS : Z;
  VIDEO_CODEC : string;
  VIDEO_PRESET : string;
  CRF : string;
  CAM_INDEX : Z;
  TELEGRAM_BOT_TOKEN : string;
  TELEGRAM_CHAT_ID : string;
  MAX_TELEGRAM_MB : Z;
}.

Definition VIDEOS_DIR (cfg : Config) : path := BASE_DIR cfg // "videos".
Definition IMAGES_DIR (cfg : Config) : path := BASE_DIR cfg // "images".

(** ** The instruction set *)

Abbreviation bytes := (list Byte.byte).

(** A camera frame (the pixel array). *)
Abbreviation frame := (list Byte.byte).

(** The four subprocess command lines of the program. *)
Inductive command :=
  | FfmpegImages (fps : Z) (day_dir : path) (codec preset crf : string) (out : path)
  | FfmpegToTs (src dst : path)
  | FfmpegConcat (ts_files : list path) (out : path)
  | Cp (src dst : path).

Inductive exn :=
  | RuntimeError (msg : string)
  | CalledProcessError (cmd : command)
  | FileNotFoundError (p : path)
  | Cv2Error
  | KeyboardInterrupt.

(** [except Exception] catches everything but [KeyboardInterrupt]. *)
Definition is_Exception (e : exn) : bool :=
  match e with
  | KeyboardInterrupt => false
  | _ => true
  end.

Inductive level := INFO | WARNING | ERROR.

(** The log lines of the program, by what they report. *)
Inductive message :=
  | MsgMakingVideo (day_dir out : path)
  | MsgConcat (n : nat) (out : path)
  | MsgTelegramNotConfigured
  | MsgSkippingSend (size : Z)
  | MsgSent (p : path)
  | MsgOpeningCamera (index : Z)
  | MsgFailedCapture
  | MsgCaptured (filename : path)
  | MsgErrorFinalizing (e : exn)
  | MsgDaemonStarted
  | MsgStopping.

(** What a started thread runs: the finalization job of one day. *)
Inductive thread_target :=
  | FinalizeJob (day : date) (dirpath : path).

Inductive cap_prop := CAP_PROP_FRAME_WIDTH | CAP_PROP_FRAME_HEIGHT.

(** One call into the outside world, indexed by the type of its answer.
    A call that may raise answers with [inl] of the exception.

    [SendVideo] is the call [bot.send_video(...)] of [send_file_telegram].
    The module imports [Application], which the library has from its
    version 20 on, where the methods of [Bot] are coroutine functions; the
    call is not awaited, so it makes a coroutine object and returns at
    once: nothing is transmitted by it and no transport error is raised. *)
Inductive op : Type → Type :=
  | DateToday : op date
  | TimeSleep (secs : Z) : op unit
  | Mkdir (p : path) : op unit
  | VideoCapture (index : Z) : op unit
  | CapSet (prop : cap_prop) (v : Z) : op unit
  | CapRead : op (option frame)
  | CapRelease : op unit
  | Imwrite (p : path) (f : frame) (quality : Z) : op (exn + bool)
  | Log (lvl : level) (m : message) : op unit
  | ThreadStart (t : thread_target) : op unit
  | SubprocessRun (c : command) : op bool
  | PathExists (p : path) : op bool
  | OsRemove (p : path) : op (exn + unit)
  | OsReplace (src dst : path) : op (exn + unit)
  | StatSize (p : path) : op (exn + Z)
  | OpenRb (p : path) : op (exn + unit)
  | SendVideo (token chat_id : string) (p : path) (caption : string) : op unit.

(** Programs: return, raise, or call the world and continue. *)
Inductive Prog (A : Type) : Type :=
  | Ret (a : A)
  | Raise (e : exn)
  | Vis {X : Type} (o : op X) (k : X → Prog A).

Arguments Ret {A} a.
Arguments Raise {A} e.
Arguments Vis {A X} o k.

Fixpoint bind {A B} (p : Prog A) (f : A → Prog B) : Prog B :=
  match p with
  | Ret a => f a
  | Raise e => Raise e
  | Vis o k => Vis o (λ x, bind (k x) f)
  end.

Notation "x <- p ;; q" := (bind p (λ x, q))
  (at level 100, p at next level, right associativity).
Notation "p ;; q" := (bind p (λ _, q))
  (at level 100, right associativity).

(** A call that cannot raise. *)
Definition call {X} (o : op X) : Prog X := Vis o Ret.

(** A call that may raise. *)
Definition call_raising {X} (o : op (exn + X)) : Prog X :=
  Vis o (λ r, match r with inl e => Raise e | inr x => Ret x end).

(** [try: p except <those e with catches e>: h e]. *)
Fixpoint try_except {A} (catches : exn → bool) (p : Prog A) (h : exn → Prog A)
  : Prog A :=
  match p with
  | Ret a => Ret a
  | Raise e => if catches e then h e else Raise e
  | Vis o k => Vis o (λ x, try_except catches (k x) h)
  end.

(** [try: p finally: fin]. *)
Fixpoint try_finally {A} (p : Prog A) (fin : Prog unit) : Prog A :=
  match p with
  | Ret a => fin ;; Ret a
  | Raise e => fin ;; Raise e
  | Vis o k => Vis o (λ x, try_finally (k x) fin)
  end.

(** ** The world and the environment *)

(** One performed call together with its answer. *)
Inductive event :=
  | Ev {X : Type} (o : op X) (r : X).

(** The state a program acts on: the files, the history of calls, how
    many answers of each kind the environment has already given, and how
    many times [send_video] has been called. *)
Record World := {
  fs : gmap path bytes;
  trace : list event;
  n_today : nat;
  n_read : nat;
  n_imwrite : nat;
  n_proc : nat;
  n_send : nat;
}.

(** [cv2.imwrite] writes the file and returns [True], or returns [False]
    (possibly leaving a damaged file), or raises. *)
Inductive imwrite_outcome :=
  | Written
  | NotWritten (left_behind : option bytes)
  | WriteRaises.

(** A subprocess exits with status zero, or with another status, possibly
    leaving a partial output file. *)
Inductive proc_outcome :=
  | ExitZero
  | ExitNonZero (left_behind : option bytes).

(** The external collaborators: what the clock, the camera, the disk and
    the subprocesses answer at their successive calls, and what the encoder
    computes when it succeeds. *)
Record Env := {
  today_at : nat → date;
  cam_read_at : nat → option frame;
  imwrite_at : nat → imwrite_outcome;
  jpeg_encode : Z → frame → bytes;
  proc_at : nat → proc_outcome;
  ff_encode : Z → list bytes → bytes;
  ff_to_ts : bytes → bytes;
  ff_concat : list bytes → bytes;
}.

(** The file name ffmpeg's pattern [%06d.jpg] and the f-string
    [{seq:06d}.jpg] give to frame number [k]. *)
Definition frame_name (k : Z) : string := Fmt.format_0d 6 k +:+ ".jpg".

(** The frames ffmpeg's image reader finds from number [k] on: it stops at
    the first missing number. *)
Fixpoint image_sequence (files : gmap path bytes) (dir : path)
    (fuel : nat) (k : Z) : list bytes :=
  match fuel with
  | O => []
  | S fuel' =>
      match files !! (dir // frame_name k) with
      | Some b => b :: image_sequence files dir fuel' (k + 1)
      | None => []
      end
  end.

Definition leave (out : path) (partial : option bytes)
    (files : gmap path bytes) : gmap path bytes :=
  match partial with
  | Some b => <[out := b]> files
  | None => files
  end.

Definition finish (o : proc_outcome) (out : path) (result : bytes)
    (files : gmap path bytes) : bool * gmap path bytes :=
  match o with
  | ExitZero => (true, <[out := result]> files)
  | ExitNonZero partial => (false, leave out partial files)
  end.

(** A subprocess reads its inputs and writes its output path only; it
    fails when an input is missing. *)
Definition run_command (env : Env) (c : command) (o : proc_outcome)
    (files : gmap path bytes) : bool * gmap path bytes :=
  match c with
  | Cp src dst =>
      match files !! src with
      | Some b => finish o dst b files
      | None => (false, files)
      end
  | FfmpegToTs src dst =>
      match files !! src with
      | Some b => finish o dst (ff_to_ts env b) files
      | None => (false, files)
      end
  | FfmpegConcat ts_files out =>
      match mapM (λ p, files !! p) ts_files with
      | Some bs => finish o out (ff_concat env bs) files
      | None => (false, files)
      end
  | FfmpegImages fps day_dir _ _ _ out =>
      match image_sequence files day_dir (size files) 1 with
      | [] => (false, files)
      | frames => finish o out (ff_encode env fps frames) files
      end
  end.

Definition set_fs (files : gmap path bytes) (w : World) : World :=
  {| fs := files; trace := trace w; n_today := n_today w; n_read := n_read w;
     n_imwrite := n_imwrite w; n_proc := n_proc w; n_send := n_send w |}.

Definition emit {X} (o : op X) (r : X) (w : World) : World :=
  {| fs := fs w; trace := trace w ++ [Ev o r]; n_today := n_today w;
     n_read := n_read w; n_imwrite := n_imwrite w; n_proc := n_proc w;
     n_send := n_send w |}.

Definition next_today (w : World) : World :=
  {| fs := fs w; trace := trace w; n_today := S (n_today w); n_read := n_read w;
     n_imwrite := n_imwrite w; n_proc := n_proc w; n_send := n_send w |}.

Definition next_read (w : World) : World :=
  {| fs := fs w; trace := trace w; n_today := n_today w; n_read := S (n_read w);
     n_imwrite := n_imwrite w; n_proc := n_proc w; n_send := n_send w |}.

Definition next_imwrite (w : World) : World :=
  {| fs := fs w; trace := trace w; n_today := n_today w; n_read := n_read w;
     n_imwrite := S (n_imwrite w); n_proc := n_proc w; n_send := n_send w |}.

Definition next_proc (w : World) : World :=
  {| fs := fs w; trace := trace w; n_today := n_today w; n_read := n_read w;
     n_imwrite := n_imwrite w; n_proc := S (n_proc w); n_send := n_send w |}.

Definition next_send (w : World) : World :=
  {| fs := fs w; trace := trace w; n_today := n_today w; n_read := n_read w;
     n_imwrite := n_imwrite w; n_proc := n_proc w; n_send := S (n_send w) |}.

(** The answer to one call and the world after it (history apart). *)
Definition answer (env : Env) {X} (o : op X) (w : World) : X * World :=
  match o in op X return X * World with
  | DateToday => (today_at env (n_today w), next_today w)
  | TimeSleep _ => (tt, w)
  | Mkdir _ => (tt, w)
  | VideoCapture _ => (tt, w)
  | CapSet _ _ => (tt, w)
  | CapRead => (cam_read_at env (n_read w), next_read w)
  | CapRelease => (tt, w)
  | Imwrite p f quality =>
      match imwrite_at env (n_imwrite w) with
      | Written =>
          (inr true, set_fs (<[p := jpeg_encode env quality f]> (fs w)) (next_imwrite w))
      | NotWritten partial =>
          (inr false, set_fs (leave p partial (fs w)) (next_imwrite w))
      | WriteRaises => (inl Cv2Error, next_imwrite w)
      end
  | Log _ _ => (tt, w)
  | ThreadStart _ => (tt, w)
  | SubprocessRun c =>
      let '(ok, files) := run_command env c (proc_at env (n_proc w)) (fs w) in
      (ok, set_fs files (next_proc w))
  | PathExists p => (bool_decide (is_Some (fs w !! p)), w)
  | OsRemove p =>
      match fs w !! p with
      | Some _ => (inr tt, set_fs (delete p (fs w)) w)
      | None => (inl (FileNotFoundError p), w)
      end
  | OsReplace src dst =>
      match fs w !! src with
      | Some b => (inr tt, set_fs (<[dst := b]> (delete src (fs w))) w)
      | None => (inl (FileNotFoundError src), w)
      end
  | StatSize p =>
      match fs w !! p with
      | Some b => (inr (Z.of_nat (length b)), w)
      | None => (inl (FileNotFoundError p), w)
      end
  | OpenRb p =>
      match fs w !! p with
      | Some _ => (inr tt, w)
      | None => (inl (FileNotFoundError p), w)
      end
  | SendVideo _ _ _ _ => (tt, next_send w)
  end.

(** One call: answer it and append it to the history. *)
Definition perform (env : Env) {X} (o : op X) (w : World) : X * World :=
  let '(r, w') := answer env o w in (r, emit o r w').

Inductive outcome (A : Type) : Type :=
  | Returned (a : A)
  | Raised (e : exn).

Arguments Returned {A} a.
Arguments Raised {A} e.

(** Running a program to its end, in one thread. *)
Fixpoint exec (env : Env) {A} (p : Prog A) (w : World) : outcome A * World :=
  match p with
  | Ret a => (Returned a, w)
  | Raise e => (Raised e, w)
  | Vis o k => let '(r, w') := perform env o w in exec env (k r) w'
  end.

(** One call of one thread; a finished thread stays as it is. *)
Definition step (env : Env) {A} (p : Prog A) (w : World) : Prog A * World :=
  match p with
  | Vis o k => let '(r, w') := perform env o w in (k r, w')
  | _ => (p, w)
  end.

(** Threads sharing the world; the schedule names the thread that makes
    the next call. *)
Fixpoint interleave (env : Env) (schedule : list nat)
    (threads : list (Prog unit)) (w : World) : list (Prog unit) * World :=
  match schedule with
  | [] => (threads, w)
  | i :: rest =>
      match threads !! i with
      | Some p =>
          let '(p', w') := step env p w in
          interleave env rest (<[i := p']> threads) w'
      | None => interleave env rest threads w
      end
  end.

(** ** The program *)

Section Program.

(** The module-level [DEFAULTS]. *)
Variable cfg : Config.

(** [subprocess.run(cmd, check=True)]. *)
Definition subprocess_run (c : command) : Prog unit :=
  Vis (SubprocessRun c) (λ ok, if ok then Ret tt else Raise (CalledProcessError c)).

(** *** ffmpeg helpers *)

Definition make_video_from_images (day_dir out_mp4 : path) (fps : Z) : Prog unit :=
  call (Log INFO (MsgMakingVideo day_dir out_mp4)) ;;
  subprocess_run
    (FfmpegImages fps day_dir (VIDEO_CODEC cfg) (VIDEO_PRESET cfg) (CRF cfg) out_mp4).

(** The loop of [concat_videos_fast]'s [try] block.  It returns the list
    [ts_files] as it stands when the block is left, and the exception
    that left it, if one did. *)
Fixpoint remux_all (video_paths : list path) (ts_files : list path)
  : Prog (list path * option exn) :=
  match video_paths with
  | [] => Ret (ts_files, None)
  | v :: rest =>
      let ts := PurePath.with_suffix v ".ts" in
      Vis (SubprocessRun (FfmpegToTs v ts))
        (λ ok, if ok then remux_all rest (ts_files ++ [ts])
               else Ret (ts_files, Some (CalledProcessError (FfmpegToTs v ts))))
  end.

(** The [finally] block: remove every file of [ts_files], ignoring
    failures. *)
Fixpoint remove_all (ts_files : list path) : Prog unit :=
  match ts_files with
  | [] => Ret tt
  | p :: rest => Vis (OsRemove p) (λ _, remove_all rest)
  end.

Definition concat_videos_fast (video_paths : list path) (outpath : path)
  : Prog unit :=
  call (Log INFO (MsgConcat (length video_paths) outpath)) ;;
  left <- remux_all video_paths [] ;;
  match left with
  | (ts_files, Some e) => remove_all ts_files ;; Raise e
  | (ts_files, None) =>
      Vis (SubprocessRun (FfmpegConcat ts_files outpath))
        (λ ok, remove_all ts_files ;;
               if ok then Ret tt
               else Raise (CalledProcessError (FfmpegConcat ts_files outpath)))
  end.

Definition merge_daily_into_master (master_path day_video_path : path)
  : Prog path :=
  present <- call (PathExists master_path) ;;
  if negb present then
    subprocess_run (Cp day_video_path master_path) ;;
    Ret master_path
  else
    let temp_out := PurePath.with_suffix master_path ".new.mp4" in
    concat_videos_fast [master_path; day_video_path] temp_out ;;
    call_raising (OsReplace temp_out master_path) ;;
    Ret master_path.

(** *** Telegram helpers *)

(** The float nearest to the integer [n], as [int / int] makes it before
    it divides: a double keeps the 53 leading bits, rounded to nearest,
    ties to even.  (From [2^1024] on Python raises [OverflowError]; the
    size of a file is far below.) *)
Definition round_to_double (n : Z) : Z :=
  let dropped := Z.log2 n - 52 in
  if dropped <=? 0 then n
  else
    let q := Z.shiftr n dropped in
    let r := Z.land n (Z.ones dropped) in
    let half := Z.shiftl 1 (dropped - 1) in
    let q' := if (half <? r) || ((r =? half) && Z.odd q) then q + 1 else q in
    Z.shiftl q' dropped.

(** [st_size / 1024 / 1024]: float division.  Dividing by a power of two
    is exact, so the only rounding is that of [st_size] itself. *)
Definition filesize_mb (st_size : Z) : Q :=
  (inject_Z (round_to_double st_size) / 1024 / 1024)%Q.

(** [filesize_mb > DEFAULTS["MAX_TELEGRAM_MB"]]: Python compares a float
    with an integer exactly. *)
Definition too_large (st_size : Z) : bool :=
  negb (Qle_bool (filesize_mb st_size) (inject_Z (MAX_TELEGRAM_MB cfg))).

(** [not bot_token or not chat_id]: an empty string is false. *)
Definition not_configured : bool :=
  bool_decide (TELEGRAM_BOT_TOKEN cfg = EmptyString)
  || bool_decide (TELEGRAM_CHAT_ID cfg = EmptyString).

Definition send_file_telegram (file_path : path) (caption : string) : Prog unit :=
  if not_configured then
    call (Log WARNING MsgTelegramNotConfigured)
  else
    st_size <- call_raising (StatSize file_path) ;;
    if too_large st_size then
      call (Log WARNING (MsgSkippingSend st_size))
    else
      call_raising (OpenRb file_path) ;;
      call (SendVideo (TELEGRAM_BOT_TOKEN cfg) (TELEGRAM_CHAT_ID cfg) file_path caption) ;;
      call (Log INFO (MsgSent file_path)).

(** *** The capture daemon *)

(** The attributes of a [TimelapseDaemon]; [cap] tells whether the
    capture handle is set. *)
Record Daemon := {
  cap : bool;
  seq : Z;
  running : bool;
  width : Z;
  height : Z;
  interval : Z;
  current_day : date;
  current_dir : path;
}.

Definition set_cap (b : bool) (self : Daemon) : Daemon :=
  {| cap := b; seq := seq self; running := running self; width := width self;
     height := height self; interval := interval self;
     current_day := current_day self; current_dir := current_dir self |}.

Definition set_seq (n : Z) (self : Daemon) : Daemon :=
  {| cap := cap self; seq := n; running := running self; width := width self;
     height := height self; interval := interval self;
     current_day := current_day self; current_dir := current_dir self |}.

Definition set_running (b : bool) (self : Daemon) : Daemon :=
  {| cap := cap self; seq := seq self; running := b; width := width self;
     height := height self; interval := interval self;
     current_day := current_day self; current_dir := current_dir self |}.

Definition set_bucket (d : date) (dir : path) (self : Daemon) : Daemon :=
  {| cap := cap self; seq := seq self; running := running self;
     width := width self; height := height self; interval := interval self;
     current_day := d; current_dir := dir |}.

(** [TimelapseDaemon.__init__]. *)
Definition init : Prog Daemon :=
  today <- call DateToday ;;
  let dir := IMAGES_DIR cfg // isoformat today in
  call (Mkdir dir) ;;
  Ret {| cap := false; seq := 1; running := false;
         width := FRAME_WIDTH cfg; height := FRAME_HEIGHT cfg;
         interval := CAPTURE_INTERVAL_SECONDS cfg;
         current_day := today; current_dir := dir |}.

Definition open_cam (self : Daemon) : Prog Daemon :=
  call (Log INFO (MsgOpeningCamera (CAM_INDEX cfg))) ;;
  call (VideoCapture (CAM_INDEX cfg)) ;;
  let self := set_cap true self in
  call (CapSet CAP_PROP_FRAME_WIDTH (width self)) ;;
  call (CapSet CAP_PROP_FRAME_HEIGHT (height self)) ;;
  call (TimeSleep 1) ;;
  got <- call CapRead ;;
  match got with
  | None => Raise (RuntimeError "Camera not accessible.")
  | Some _ => Ret self
  end.

Definition capture_frame (self : Daemon) : Prog Daemon :=
  got <- call CapRead ;;
  match got with
  | None =>
      call (Log WARNING MsgFailedCapture) ;;
      Ret self
  | Some frame =>
      let filename := current_dir self // frame_name (seq self) in
      call_raising (Imwrite filename frame 85) ;;
      call (Log INFO (MsgCaptured filename)) ;;
      Ret (set_seq (seq self + 1) self)
  end.

(** The body of the thread that [finalize_day_async] starts. *)
Definition job (day : date) (dirpath : path) : Prog unit :=
  try_except is_Exception
    (let day_str := isoformat day in
     let out_mp4 := VIDEOS_DIR cfg // (day_str +:+ ".mp4") in
     make_video_from_images dirpath out_mp4 (DAILY_FPS cfg) ;;
     send_file_telegram out_mp4 ("Timelapse " +:+ day_str) ;;
     let master := VIDEOS_DIR cfg // "master.mp4" in
     merge_daily_into_master master out_mp4 ;;
     send_file_telegram master ("Updated master after " +:+ day_str))
    (λ e, call (Log ERROR (MsgErrorFinalizing e))).

Definition finalize_day_async (day : date) (dirpath : path) : Prog unit :=
  call (ThreadStart (FinalizeJob day dirpath)).

(** The paced wait: [for _ in range(n)] with its [break]. *)
Fixpoint wait (n : nat) (self : Daemon) : Prog unit :=
  match n with
  | O => Ret tt
  | S n' =>
      call (TimeSleep 1) ;;
      today <- call DateToday ;;
      if bool_decide (today ≠ current_day self) then Ret tt else wait n' self
  end.

(** One turn of the [while] loop of [run]. *)
Definition iteration (self : Daemon) : Prog Daemon :=
  now <- call DateToday ;;
  self <- (if bool_decide (now ≠ current_day self) then
             finalize_day_async (current_day self) (current_dir self) ;;
             let dir := IMAGES_DIR cfg // isoformat now in
             call (Mkdir dir) ;;
             Ret (set_seq 1 (set_bucket now dir self))
           else Ret self) ;;
  self <- capture_frame self ;;
  wait (Z.to_nat (interval self)) self ;;
  Ret self.

(** The [while self.running] loop, followed for [turns] turns. *)
Fixpoint run_loop (turns : nat) (self : Daemon) : Prog Daemon :=
  match turns with
  | O => Ret self
  | S turns' =>
      if running self then
        self <- iteration self ;;
        run_loop turns' self
      else Ret self
  end.

Definition run (turns : nat) (self : Daemon) : Prog unit :=
  let self := set_running true self in
  self <- open_cam self ;;
  call (Log INFO MsgDaemonStarted) ;;
  try_finally
    (try_except (λ e, negb (is_Exception e))
       (run_loop turns self ;; Ret tt)
       (λ _, call (Log INFO MsgStopping)))
    (if cap self then call CapRelease else Ret tt).

(** *** The main block *)

(** What the main thread blocks on once the daemon thread is started. *)
Inductive main_wait := RunPolling | JoinDaemonThread.

Definition main_blocks_on : main_wait :=
  if bool_decide (TELEGRAM_BOT_TOKEN cfg ≠ EmptyString)
  then RunPolling else JoinDaemonThread.

(** The process lives as long as its main thread is blocked:
    [app.run_polling()] does not return by itself, [t.join()] returns
    when the daemon thread has ended. *)
Definition process_alive (daemon_thread_ended : bool) : bool :=
  match main_blocks_on with
  | RunPolling => true
  | JoinDaemonThread => negb daemon_thread_ended
  end.

(** [turns] successive calls of [capture_frame]. *)
Fixpoint captures (turns : nat) (self : Daemon) : Prog Daemon :=
  match turns with
  | O => Ret self
  | S turns' => self <- capture_frame self ;; captures turns' self
  end.

End Program.

(** ** Reading a history *)

(** Seconds slept by one call. *)
Definition sleep_of (ev : event) : Z :=
  match ev with
  | Ev o _ => match o with TimeSleep secs => secs | _ => 0 end
  end.

(** Seconds slept over a stretch of history. *)
Definition slept (evs : list event) : Z := foldr (λ ev acc, sleep_of ev + acc) 0 evs.

(** The directory a call writes a frame into, if it is an [imwrite]. *)
Definition imwrite_dir (ev : event) : option path :=
  match ev with
  | Ev o _ => match o with Imwrite p _ _ => Some (removelast p) | _ => None end
  end.

(** The directory a call hands to a finalization job, if it starts one. *)
Definition dispatched_dir (ev : event) : option path :=
  match ev with
  | Ev o _ =>
      match o with ThreadStart (FinalizeJob _ dirpath) => Some dirpath | _ => None end
  end.

(** The day a call hands to a finalization job, if it starts one. *)
Definition dispatched_day (ev : event) : option date :=
  match ev with
  | Ev o _ =>
      match o with ThreadStart (FinalizeJob d _) => Some d | _ => None end
  end.


(** No frame is written into a directory once it has been handed to a
    finalization job; [frozen] lists the directories already handed over. *)
Fixpoint no_write_after_dispatch (frozen : list path) (evs : list event) : Prop :=
  match evs with
  | [] => True
  | ev :: rest =>
      match imwrite_dir ev with
      | Some dir => dir ∉ frozen
      | None => True
      end
      ∧ no_write_after_dispatch
          (match dispatched_dir ev with Some dir => dir :: frozen | None => frozen end)
          rest
  end.

(** The files after the frames [frames] have been stored in [dir] under
    the numbers [s], [s + 1], ... in turn. *)
Fixpoint store_frames (env : Env) (dir : path) (s : Z) (frames : list frame)
    (files : gmap path bytes) : gmap path bytes :=
  match frames with
  | [] => files
  | f :: rest =>
      store_frames env dir (s + 1) rest
        (<[dir // frame_name s := jpeg_encode env 85 f]> files)
  end.

(** The names of the frames [1 .. n]. *)
Definition frame_names (n : nat) : list string := frame_name <$> seqZ 1 (Z.of_nat n).

(** The world once a change of date has been handled: the job is started,
    then the directory of the new day is made. *)
Definition rolled_over (cfg : Config) (env : Env) (self : Daemon) (w : World)
  : World :=
  let now := today_at env (n_today w) in
  emit (Mkdir (IMAGES_DIR cfg // isoformat now)) tt
    (emit (ThreadStart (FinalizeJob (current_day self) (current_dir self))) tt
       (emit DateToday now (next_today w))).

(** The daemon once a change of date has been handled. *)
Definition new_bucket (cfg : Config) (env : Env) (self : Daemon) (w : World)
  : Daemon :=
  let now := today_at env (n_today w) in
  set_seq 1 (set_bucket now (IMAGES_DIR cfg // isoformat now) self).

(** An answer as the world gives them: the exception of a failed call is
    never [KeyboardInterrupt]. *)
Definition usual_answer {X} (o : op X) : X → Prop :=
  match o in op X return X → Prop with
  | Imwrite _ _ _ => λ r, match r with inl e => is_Exception e = true | inr _ => True end
  | OsRemove _ => λ r, match r with inl e => is_Exception e = true | inr _ => True end
  | OsReplace _ _ => λ r, match r with inl e => is_Exception e = true | inr _ => True end
  | StatSize _ => λ r, match r with inl e => is_Exception e = true | inr _ => True end
  | OpenRb _ => λ r, match r with inl e => is_Exception e = true | inr _ => True end
  | _ => λ _, True
  end.

(** Programs that raise nothing [except Exception] would miss. *)
Inductive raises_Exception_only {A} : Prog A → Prop :=
  | reo_ret (a : A) : raises_Exception_only (Ret a)
  | reo_raise (e : exn) : is_Exception e = true → raises_Exception_only (Raise e)
  | reo_vis {X} (o : op X) (k : X → Prog A) :
      (∀ x, usual_answer o x → raises_Exception_only (k x)) →
      raises_Exception_only (Vis o k).

(** The one path a subprocess writes. *)
Definition command_output (c : command) : path :=
  match c with
  | FfmpegImages _ _ _ _ _ out => out
  | FfmpegToTs _ dst => dst
  | FfmpegConcat _ out => out
  | Cp _ dst => dst
  end.

(** The paths a call may create, change or remove. *)
Definition op_targets {X} (o : op X) : list path :=
  match o with
  | Imwrite p _ _ => [p]
  | SubprocessRun c => [command_output c]
  | OsRemove p => [p]
  | OsReplace src dst => [src; dst]
  | _ => []
  end.

(** Programs none of whose calls has [q] among its targets. *)
Inductive leaves_alone {A} (q : path) : Prog A → Prop :=
  | la_ret (a : A) : leaves_alone q (Ret a)
  | la_raise (e : exn) : leaves_alone q (Raise e)
  | la_vis {X} (o : op X) (k : X → Prog A) :
      q ∉ op_targets o → (∀ x, leaves_alone q (k x)) → leaves_alone q (Vis o k).

(** Whether the character [c] occurs in [s]. *)
Fixpoint has_char (c : ascii) (s : string) : bool :=
  match s with
  | EmptyString => false
  | String a s' => Ascii.eqb a c || has_char c s'
  end.

(** The names of the files of a merge, for the video of one day. *)
Definition daily_name (day : date) : string := isoformat day +:+ ".mp4".
Definition daily_ts_name (day : date) : string := isoformat day +:+ ".ts".

(** The directories handed to finalization jobs by the end of [evs],
    [frozen] being those handed over before. *)
Definition dispatched_after (frozen : list path) (evs : list event) : list path :=
  foldl (λ f ev, match dispatched_dir ev with Some d => d :: f | None => f end)
    frozen evs.

(** The days handed to finalization jobs, in the order of the calls. *)
Definition dispatched_days (evs : list event) : list date := omap dispatched_day evs.

(** A call that starts no job and writes no frame, except into [dir]. *)
Definition calm (dir : path) (ev : event) : Prop :=
  dispatched_dir ev = None ∧ dispatched_day ev = None
  ∧ (imwrite_dir ev = None ∨ imwrite_dir ev = Some dir).

(** What the history of the loop satisfies while [cur] is the current day:
    the directories handed over are those of earlier days, no frame was
    written into one of them afterwards, and the days were handed over in
    increasing order. *)
Definition trace_inv (cfg : Config) (cur : date) (tr : list event) : Prop :=
  (∀ dir, dir ∈ dispatched_after [] tr →
     ∃ d, valid_date d ∧ date_lt d cur ∧ dir = IMAGES_DIR cfg // isoformat d)
  ∧ no_write_after_dispatch [] tr
  ∧ StronglySorted date_lt (dispatched_days tr)
  ∧ (∀ d, d ∈ dispatched_days tr → date_lt d cur).

(** What the loop keeps true of the daemon and the world between turns. *)
Definition bucket_inv (cfg : Config) (env : Env) (self : Daemon) (w : World) : Prop :=
  current_dir self = IMAGES_DIR cfg // isoformat (current_day self)
  ∧ valid_date (current_day self)
  ∧ (∀ j, (n_today w ≤ j)%nat → date_le (current_day self) (today_at env j))
  ∧ trace_inv cfg (current_day self) (trace w).

(** ** Merges in two threads *)

(** A thread that merges one day's video into the master. *)
Definition merge_thread (master_path day_video_path : path) : Prog unit :=
  merge_daily_into_master master_path day_video_path ;; Ret tt.

(** An order of the calls of two such threads: the first runs up to its
    [os.replace], the second converts its inputs, the first replaces the
    master, the second goes on to its end. *)
Definition overlapping : list nat :=
  replicate 7 0%nat ++ replicate 4 1%nat ++ [0%nat] ++ replicate 4 1%nat.

(** ** Concrete settings used to exercise the statements *)

Module Scenario.

Definition cfg : Config :=
  {| BASE_DIR := ["data"]; CAPTURE_INTERVAL_SECONDS := 2;
     FRAME_WIDTH := 1280; FRAME_HEIGHT := 720; DAILY_FPS := 30;
     VIDEO_CODEC := "libx264"; VIDEO_PRESET := "ultrafast"; CRF := "23";
     CAM_INDEX := 0; TELEGRAM_BOT_TOKEN := EmptyString;
     TELEGRAM_CHAT_ID := EmptyString; MAX_TELEGRAM_MB := 400 |}.

(** The same with a notifier. *)
Definition cfg_telegram : Config :=
  {| BASE_DIR := ["data"]; CAPTURE_INTERVAL_SECONDS := 2;
     FRAME_WIDTH := 1280; FRAME_HEIGHT := 720; DAILY_FPS := 30;
     VIDEO_CODEC := "libx264"; VIDEO_PRESET := "ultrafast"; CRF := "23";
     CAM_INDEX := 0; TELEGRAM_BOT_TOKEN := "token";
     TELEGRAM_CHAT_ID := "chat"; MAX_TELEGRAM_MB := 400 |}.

Definition world (files : gmap path bytes) : World :=
  {| fs := files; trace := []; n_today := 0; n_read := 0; n_imwrite := 0;
     n_proc := 0; n_send := 0 |}.

Definition day1 : date := Date 2024 1 1.
Definition day2 : date := Date 2024 1 2.

Definition picture : frame := [Byte.x01].

(** Every collaborator succeeds; the encoder's results are the plain
    concatenations of its inputs; the date is [day1] throughout. *)
Definition all_well : Env :=
  {| today_at := λ _, day1;
     cam_read_at := λ _, Some picture;
     imwrite_at := λ _, Written;
     jpeg_encode := λ _ f, f;
     proc_at := λ _, ExitZero;
     ff_encode := λ _ frames, concat frames;
     ff_to_ts := λ b, b;
     ff_concat := λ parts, concat parts |}.

Definition with_clock (clock : nat → date) (env : Env) : Env :=
  {| today_at := clock; cam_read_at := cam_read_at env;
     imwrite_at := imwrite_at env; jpeg_encode := jpeg_encode env;
     proc_at := proc_at env; ff_encode := ff_encode env;
     ff_to_ts := ff_to_ts env; ff_concat := ff_concat env |}.

Definition with_camera (cam : nat → option frame) (env : Env) : Env :=
  {| today_at := today_at env; cam_read_at := cam;
     imwrite_at := imwrite_at env; jpeg_encode := jpeg_encode env;
     proc_at := proc_at env; ff_encode := ff_encode env;
     ff_to_ts := ff_to_ts env; ff_concat := ff_concat env |}.

Definition with_imwrite (wr : nat → imwrite_outcome) (env : Env) : Env :=
  {| today_at := today_at env; cam_read_at := cam_read_at env;
     imwrite_at := wr; jpeg_encode := jpeg_encode env;
     proc_at := proc_at env; ff_encode := ff_encode env;
     ff_to_ts := ff_to_ts env; ff_concat := ff_concat env |}.

Definition with_procs (pr : nat → proc_outcome) (env : Env) : Env :=
  {| today_at := today_at env; cam_read_at := cam_read_at env;
     imwrite_at := imwrite_at env; jpeg_encode := jpeg_encode env;
     proc_at := pr; ff_encode := ff_encode env;
     ff_to_ts := ff_to_ts env; ff_concat := ff_concat env |}.

(** A daemon as [__init__] leaves it on [day1]. *)
Definition fresh_daemon : Daemon :=
  {| cap := false; seq := 1; running := false; width := 1280; height := 720;
     interval := 2; current_day := day1;
     current_dir := ["data"; "images"; "2024-01-01"] |}.

End Scenario.


(** A clock that shows [Scenario.day1] for its first three readings and
    [Scenario.day2] from then on, and the environment that goes with it. *)
Definition two_day_clock (n : nat) : date :=
  if (n <? 3)%nat then Scenario.day1 else Scenario.day2.

Definition two_days : Env := Scenario.with_clock two_day_clock Scenario.all_well.

(** How many of the [n] camera reads from the [k]-th on give a frame. *)
Fixpoint frames_got (env : Env) (k n : nat) : nat :=
  match n with
  | O => O
  | S n' =>
      (match cam_read_at env k with Some _ => 1 | None => 0 end
       + frames_got env (S k) n')%nat
  end.

(* ================================================================== *)
(** * Properties *)
(* ================================================================== *)

(** ** Facts about the formatting functions *)

Module FmtFacts.
Import Fmt.

Lemma string_app_nil_l (t : string) : EmptyString +:+ t = t.
Proof. reflexivity. Qed.

Lemma string_app_cons a (s t : string) : String a s +:+ t = String a (s +:+ t).
Proof. reflexivity. Qed.

Ltac sapp := rewrite ?string_app_cons, ?string_app_nil_l; simpl String.length.

Lemma zeros_length k : String.length (zeros k) = k.
Proof. induction k; simpl; congruence. Qed.

Lemma string_app_length (s t : string) :
  String.length (s +:+ t) = (String.length s + String.length t)%nat.
Proof. induction s; sapp; [done | by rewrite IHs]. Qed.

Lemma string_app_assoc (s t u : string) : (s +:+ t) +:+ u = s +:+ (t +:+ u).
Proof. induction s; sapp; [done | by rewrite IHs]. Qed.

Lemma string_app_nil_r (s : string) : s +:+ EmptyString = s.
Proof. induction s; sapp; [done | by rewrite IHs]. Qed.

(** Two concatenations with left parts of one length are equal only
    part by part. *)
Lemma string_app_inj_length (s1 s2 t1 t2 : string) :
  String.length s1 = String.length s2 →
  s1 +:+ t1 = s2 +:+ t2 → s1 = s2 ∧ t1 = t2.
Proof.
  revert s2. induction s1 as [|a s1 IH]; intros [|b s2] Hlen Heq;
    rewrite ?string_app_cons, ?string_app_nil_l in Heq; simplify_eq/=; [done|].
  destruct (IH s2) as [-> ->]; done.
Qed.

(** Lexicographic comparison goes through equal-length prefixes. *)
Lemma compare_app (s1 s2 t1 t2 : string) :
  String.length s1 = String.length s2 →
  String.compare (s1 +:+ t1) (s2 +:+ t2)
  = match String.compare s1 s2 with
    | Eq => String.compare t1 t2
    | c => c
    end.
Proof.
  revert s2. induction s1 as [|a s1 IH]; intros [|b s2] Hlen;
    sapp; simplify_eq/=; [done|].
  destruct (Ascii.compare a b); [by apply IH | done | done].
Qed.

Lemma compare_refl (s : string) : String.compare s s = Eq.
Proof.
  induction s as [|a s IH]; simpl; [done|].
  unfold Ascii.compare. by rewrite N.compare_refl.
Qed.

Lemma fixed_go_app w n acc : fixed_go w n acc = fixed w n +:+ acc.
Proof.
  unfold fixed. revert n acc. induction w as [|w IH]; intros n acc; simpl; [done|].
  rewrite IH, (IH _ (String _ EmptyString)), string_app_assoc. done.
Qed.

Lemma fixed_S w n :
  fixed (S w) n
  = fixed w (n `div` 10)%N +:+ String (pretty_N_char (n `mod` 10)%N) EmptyString.
Proof. unfold fixed at 1. simpl. apply fixed_go_app. Qed.

Lemma fixed_length w n : String.length (fixed w n) = w.
Proof.
  revert n. induction w as [|w IH]; intros n; [done|].
  rewrite fixed_S, string_app_length, IH. simpl. lia.
Qed.

Lemma fixed_go_length w n acc :
  String.length (fixed_go w n acc) = (w + String.length acc)%nat.
Proof. by rewrite fixed_go_app, string_app_length, fixed_length. Qed.

Lemma zeros_snoc w acc :
  zeros w +:+ String "0"%char acc = String "0"%char (zeros w +:+ acc).
Proof.
  induction w as [|w IH]; simpl zeros; sapp; [done | by rewrite IH].
Qed.

Lemma fixed_go_0 w acc : fixed_go w 0 acc = zeros w +:+ acc.
Proof.
  revert acc. induction w as [|w IH]; intros acc; simpl fixed_go; [done|].
  change (0 `div` 10)%N with 0%N.
  change (pretty_N_char (0 `mod` 10)%N) with "0"%char.
  rewrite IH, zeros_snoc. done.
Qed.

Lemma pretty_N_go_length_ge x s :
  (String.length s ≤ String.length (pretty_N_go x s))%nat.
Proof.
  revert s. induction (N.lt_wf_0 x) as [x _ IH]; intros s.
  destruct (decide (x = 0%N)) as [->|Hx]; [by rewrite pretty_N_go_0|].
  rewrite pretty_N_go_step by lia.
  etrans; [|apply IH; apply N.div_lt; lia]. simpl. lia.
Qed.

(** Below [10^w], the [w]-digit rendering is the decimal rendering
    padded with zeros. *)
Lemma fixed_go_pretty w x s :
  (x < 10 ^ N.of_nat w)%N →
  fixed_go w x s
  = zeros (w + String.length s - String.length (pretty_N_go x s))
      +:+ pretty_N_go x s.
Proof.
  revert x s. induction w as [|w IH]; intros x s Hx.
  - assert (x = 0%N) as -> by (simpl in Hx; lia).
    rewrite pretty_N_go_0. simpl. by rewrite Nat.sub_diag.
  - destruct (decide (x = 0%N)) as [->|Hx0].
    + rewrite fixed_go_0, pretty_N_go_0.
      replace (S w + String.length s - String.length s)%nat with (S w) by lia.
      done.
    + rewrite pretty_N_go_step by lia. simpl fixed_go.
      rewrite IH.
      * simpl String.length.
        by replace (w + S (String.length s))%nat
          with (S w + String.length s)%nat by lia.
      * rewrite Nat2N.inj_succ, N.pow_succ_r' in Hx.
        apply N.Div0.div_lt_upper_bound. lia.
Qed.

Lemma pretty_N_go_length_lt w x s :
  (x < 10 ^ N.of_nat w)%N →
  (String.length (pretty_N_go x s) ≤ w + String.length s)%nat.
Proof.
  intros Hx. pose proof (fixed_go_pretty w x s Hx) as H.
  apply (f_equal String.length) in H.
  rewrite fixed_go_length, string_app_length, zeros_length in H. lia.
Qed.

Lemma pretty_N_go_length_gt w x s :
  (10 ^ N.of_nat w ≤ x)%N →
  (S w + String.length s ≤ String.length (pretty_N_go x s))%nat.
Proof.
  revert x s. induction w as [|w IH]; intros x s Hx.
  - rewrite pretty_N_go_step by (simpl in Hx; lia).
    etrans; [|apply pretty_N_go_length_ge]. simpl. lia.
  - rewrite Nat2N.inj_succ, N.pow_succ_r' in Hx.
    assert (0 < 10 ^ N.of_nat w)%N by (apply N.neq_0_lt_0, N.pow_nonzero; lia).
    rewrite pretty_N_go_step by lia.
    etrans; [|apply IH].
    + simpl. lia.
    + apply N.div_le_lower_bound; lia.
Qed.

Lemma pretty_N_length_small w (x : N) :
  (1 ≤ w)%nat → (x < 10 ^ N.of_nat w)%N → (String.length (pretty x) ≤ w)%nat.
Proof.
  intros Hw Hx. unfold pretty, pretty_N. case_decide; [simpl; lia|].
  pose proof (pretty_N_go_length_lt w x EmptyString Hx). simpl in *. lia.
Qed.

Lemma pretty_N_length_big w (x : N) :
  (10 ^ N.of_nat w ≤ x)%N → (S w ≤ String.length (pretty x))%nat.
Proof.
  intros Hx. unfold pretty, pretty_N.
  assert (0 < 10 ^ N.of_nat w)%N by (apply N.neq_0_lt_0, N.pow_nonzero; lia).
  case_decide; [lia|].
  pose proof (pretty_N_go_length_gt w x EmptyString Hx). simpl in *. lia.
Qed.

(** A number that fits in [w] digits is printed with exactly [w]. *)
Lemma format_0d_fixed w n :
  (1 ≤ w)%nat → 0 ≤ n < 10 ^ Z.of_nat w →
  format_0d w n = fixed w (Z.to_N n).
Proof.
  intros Hw Hn. unfold format_0d.
  destruct (Z.ltb_spec n 0) as [?|_]; [lia|].
  replace (Z.abs_N n) with (Z.to_N n) by (destruct n; done || lia).
  assert (Z.to_N n < 10 ^ N.of_nat w)%N as Hx.
  { apply N2Z.inj_lt. rewrite N2Z.inj_pow, Z2N.id, nat_N_Z by lia. simpl. lia. }
  unfold pretty, pretty_N. case_decide as H0.
  - rewrite H0. unfold fixed. rewrite fixed_go_0, string_app_nil_r.
    destruct w as [|w]; [lia|]. simpl String.length.
    replace (S w - 1)%nat with w by lia.
    rewrite zeros_snoc. by rewrite string_app_nil_r.
  - unfold fixed. rewrite (fixed_go_pretty w _ EmptyString Hx).
    simpl String.length. by rewrite Nat.add_0_r.
Qed.

(** A number with more than [w] digits is printed in full. *)
Lemma format_0d_big w n :
  10 ^ Z.of_nat w ≤ n → format_0d w n = pretty (Z.to_N n).
Proof.
  intros Hn. unfold format_0d.
  assert (0 < 10 ^ Z.of_nat w) by (apply Z.pow_pos_nonneg; lia).
  destruct (Z.ltb_spec n 0) as [?|_]; [lia|].
  replace (Z.abs_N n) with (Z.to_N n) by (destruct n; done || lia).
  assert (S w ≤ String.length (pretty (Z.to_N n)))%nat as Hlen.
  { apply pretty_N_length_big. apply N2Z.inj_le.
    rewrite N2Z.inj_pow, Z2N.id, nat_N_Z by lia. simpl. lia. }
  replace (w - String.length (pretty (Z.to_N n)))%nat with O by lia.
  done.
Qed.

Lemma format_0d_length_small w n :
  (1 ≤ w)%nat → 0 ≤ n < 10 ^ Z.of_nat w → String.length (format_0d w n) = w.
Proof. intros. rewrite format_0d_fixed by done. apply fixed_length. Qed.

Lemma format_0d_length_big w n :
  10 ^ Z.of_nat w ≤ n → (S w ≤ String.length (format_0d w n))%nat.
Proof.
  intros Hn. rewrite format_0d_big by done.
  assert (0 < 10 ^ Z.of_nat w) by (apply Z.pow_pos_nonneg; lia).
  apply pretty_N_length_big. apply N2Z.inj_le.
  rewrite N2Z.inj_pow, Z2N.id, nat_N_Z by lia. simpl. lia.
Qed.

Lemma pretty_N_char_compare (x y : N) :
  (x < 10)%N → (y < 10)%N →
  Ascii.compare (pretty_N_char x) (pretty_N_char y) = (x ?= y)%N.
Proof.
  intros Hx Hy.
  assert (x = 0 ∨ x = 1 ∨ x = 2 ∨ x = 3 ∨ x = 4 ∨ x = 5 ∨ x = 6
          ∨ x = 7 ∨ x = 8 ∨ x = 9)%N as Hx' by lia.
  assert (y = 0 ∨ y = 1 ∨ y = 2 ∨ y = 3 ∨ y = 4 ∨ y = 5 ∨ y = 6
          ∨ y = 7 ∨ y = 8 ∨ y = 9)%N as Hy' by lia.
  clear Hx Hy.
  repeat (destruct Hx' as [->|Hx']); try subst x;
    repeat (destruct Hy' as [->|Hy']); try subst y; reflexivity.
Qed.

(** On [w]-digit renderings the order of the strings is the order of
    the numbers. *)
Lemma fixed_compare w (a b : N) :
  (a < 10 ^ N.of_nat w)%N → (b < 10 ^ N.of_nat w)%N →
  String.compare (fixed w a) (fixed w b) = (a ?= b)%N.
Proof.
  revert a b. induction w as [|w IH]; intros a b Ha Hb.
  - simpl in Ha, Hb. assert (a = 0%N) as -> by lia. assert (b = 0%N) as -> by lia.
    done.
  - rewrite Nat2N.inj_succ, N.pow_succ_r' in Ha, Hb.
    rewrite !fixed_S, compare_app by (by rewrite !fixed_length).
    rewrite IH by (apply N.Div0.div_lt_upper_bound; lia).
    simpl String.compare.
    rewrite pretty_N_char_compare by (apply N.mod_lt; lia).
    pose proof (N.div_mod a 10 ltac:(lia)) as Ea.
    pose proof (N.div_mod b 10 ltac:(lia)) as Eb.
    pose proof (N.mod_lt a 10 ltac:(lia)) as La.
    pose proof (N.mod_lt b 10 ltac:(lia)) as Lb.
    clear IH Ha Hb.
    generalize dependent (a `div` 10)%N. intros qa Ea.
    generalize dependent (a `mod` 10)%N. intros ra Ea La.
    generalize dependent (b `div` 10)%N. intros qb Eb.
    generalize dependent (b `mod` 10)%N. intros rb Eb Lb.
    destruct (N.compare_spec qa qb) as [He|Hl|Hg].
    + destruct (N.compare_spec ra rb); symmetry.
      * apply N.compare_eq_iff. lia.
      * apply N.compare_lt_iff. lia.
      * apply N.compare_gt_iff. lia.
    + symmetry. apply N.compare_lt_iff. lia.
    + symmetry. apply N.compare_gt_iff. lia.
Qed.

Lemma fixed_inj w (a b : N) :
  (a < 10 ^ N.of_nat w)%N → (b < 10 ^ N.of_nat w)%N →
  fixed w a = fixed w b → a = b.
Proof.
  intros Ha Hb Heq. apply N.compare_eq_iff.
  rewrite <- (fixed_compare w) by done. rewrite Heq. apply compare_refl.
Qed.

Lemma to_N_lt_pow w n :
  0 ≤ n < 10 ^ Z.of_nat w → (Z.to_N n < 10 ^ N.of_nat w)%N.
Proof.
  intros Hn. apply N2Z.inj_lt.
  rewrite N2Z.inj_pow, Z2N.id, nat_N_Z by lia. simpl. lia.
Qed.

(** Distinct non-negative numbers never share a rendering, whatever
    their size. *)
Lemma format_0d_inj w a b :
  (1 ≤ w)%nat → 0 ≤ a → 0 ≤ b → format_0d w a = format_0d w b → a = b.
Proof.
  intros Hw Ha Hb Heq.
  destruct (Z.lt_ge_cases a (10 ^ Z.of_nat w)) as [Ha'|Ha'];
    destruct (Z.lt_ge_cases b (10 ^ Z.of_nat w)) as [Hb'|Hb'].
  - rewrite !format_0d_fixed in Heq by lia.
    apply fixed_inj in Heq; [|by apply to_N_lt_pow..].
    apply Z2N.inj in Heq; lia.
  - pose proof (format_0d_length_small w a Hw ltac:(lia)).
    pose proof (format_0d_length_big w b Hb'). rewrite Heq in *. lia.
  - pose proof (format_0d_length_small w b Hw ltac:(lia)).
    pose proof (format_0d_length_big w a Ha'). rewrite Heq in *. lia.
  - rewrite !format_0d_big in Heq by done.
    apply (inj pretty) in Heq. apply Z2N.inj in Heq; lia.
Qed.

End FmtFacts.

(** ** Facts about running programs *)

(** Unfold the interpreter over the calls at the head of a program. *)
Ltac run_exec := repeat (progress (simpl; unfold perform; simpl)).

Section ExecFacts.

Variable env : Env.

Lemma exec_bind {A B} (p : Prog A) (f : A → Prog B) (w : World) :
  exec env (bind p f) w
  = match exec env p w with
    | (Returned a, w') => exec env (f a) w'
    | (Raised e, w') => (Raised e, w')
    end.
Proof.
  revert w. induction p as [a|e|X o k IH]; intros w; simpl; [done..|].
  destruct (perform env o w) as [r w']. apply IH.
Qed.

Lemma exec_call {X} (o : op X) (w : World) :
  exec env (call o) w
  = (Returned (answer env o w).1, emit o (answer env o w).1 (answer env o w).2).
Proof.
  unfold call, perform. simpl. unfold perform.
  by destruct (answer env o w).
Qed.

Lemma exec_try_except {A} catches (p : Prog A) h (w : World) :
  exec env (try_except catches p h) w
  = match exec env p w with
    | (Returned a, w') => (Returned a, w')
    | (Raised e, w') => if catches e then exec env (h e) w' else (Raised e, w')
    end.
Proof.
  revert w. induction p as [a|e|X o k IH]; intros w; simpl; [done| |].
  - by destruct (catches e).
  - destruct (perform env o w) as [r w']. apply IH.
Qed.

Lemma exec_try_finally {A} (p : Prog A) fin (w : World) :
  exec env (try_finally p fin) w
  = match exec env p w with
    | (Returned a, w') =>
        match exec env fin w' with
        | (Returned _, w'') => (Returned a, w'')
        | (Raised e, w'') => (Raised e, w'')
        end
    | (Raised e, w') =>
        match exec env fin w' with
        | (Returned _, w'') => (Raised e, w'')
        | (Raised e', w'') => (Raised e', w'')
        end
    end.
Proof.
  revert w. induction p as [a|e|X o k IH]; intros w; simpl.
  - rewrite exec_bind. by destruct (exec env fin w) as [[]].
  - rewrite exec_bind. by destruct (exec env fin w) as [[]].
  - destruct (perform env o w) as [r w']. apply IH.
Qed.

(** Running a program only ever extends the history. *)
Lemma exec_trace_extends {A} (p : Prog A) (w : World) :
  ∃ evs, trace (exec env p w).2 = trace w ++ evs.
Proof.
  revert w. induction p as [a|e|X o k IH]; intros w; simpl.
  - exists []. by rewrite app_nil_r.
  - exists []. by rewrite app_nil_r.
  - unfold perform. destruct (answer env o w) as [r w1] eqn:Ha.
    destruct (IH r (emit o r w1)) as [evs Hevs]. rewrite Hevs.
    assert (trace w1 = trace w) as Ht.
    { clear -Ha. destruct o; simpl in Ha; repeat case_match; simplify_eq; done. }
    simpl. rewrite Ht, <- app_assoc. eauto.
Qed.

End ExecFacts.

(** ** The paced wait *)

Section WaitFacts.

Variable env : Env.

Lemma slept_app (evs1 evs2 : list event) :
  slept (evs1 ++ evs2) = slept evs1 + slept evs2.
Proof. induction evs1 as [|ev evs1 IH]; simpl; [done | rewrite IH; lia]. Qed.

(** The wait sleeps one second at a time and reads the clock after each
    second; it returns at the first reading that differs from the
    current day. *)
Lemma wait_until_change (self : Daemon) (n k : nat) (w : World) :
  (k < n)%nat →
  (∀ i, (i < k)%nat → today_at env (n_today w + i) = current_day self) →
  today_at env (n_today w + k) ≠ current_day self →
  ∃ w' evs,
    exec env (wait n self) w = (Returned tt, w')
    ∧ trace w' = trace w ++ evs
    ∧ slept evs = Z.of_nat (S k)
    ∧ Forall (λ ev, sleep_of ev ≤ 1) evs
    ∧ n_today w' = (n_today w + S k)%nat
    ∧ fs w' = fs w.
Proof.
  revert k w. induction n as [|n IH]; intros k w Hk Hsame Hdiff; [lia|].
  simpl. unfold perform. simpl.
  destruct k as [|k].
  - rewrite Nat.add_0_r in Hdiff. rewrite bool_decide_true by done.
    eexists _, [_; _]. split; [done|]. simpl. rewrite <- app_assoc. simpl.
    repeat split; try done; [repeat constructor; simpl; lia | lia].
  - rewrite bool_decide_false.
    2: { specialize (Hsame O ltac:(lia)). rewrite Nat.add_0_r in Hsame. naive_solver. }
    edestruct (IH k) as (w' & evs & Hex & Htr & Hsl & Hall & Hn & Hfs);
      [lia | | | rewrite Hex].
    + intros i Hi. simpl. specialize (Hsame (S i) ltac:(lia)).
      by replace (S (n_today w + i)) with (n_today w + S i)%nat by lia.
    + simpl. by replace (S (n_today w + k)) with (n_today w + S k)%nat by lia.
    + simpl in *. eexists _, (_ :: _ :: evs). split; [done|].
      rewrite Htr, <- !app_assoc. simpl. split; [done|]. simpl.
      repeat split; try done.
      * rewrite Hsl. lia.
      * repeat constructor; simpl; try lia. done.
      * lia.
Qed.

(** Without a change of date the wait lasts its [n] seconds. *)
Lemma wait_full (self : Daemon) (n : nat) (w : World) :
  (∀ i, (i < n)%nat → today_at env (n_today w + i) = current_day self) →
  ∃ w' evs,
    exec env (wait n self) w = (Returned tt, w')
    ∧ trace w' = trace w ++ evs
    ∧ slept evs = Z.of_nat n
    ∧ n_today w' = (n_today w + n)%nat
    ∧ fs w' = fs w.
Proof.
  revert w. induction n as [|n IH]; intros w Hsame.
  - exists w, []. simpl. rewrite app_nil_r, Nat.add_0_r. done.
  - simpl. unfold perform. simpl.
    rewrite bool_decide_false.
    2: { specialize (Hsame O ltac:(lia)). rewrite Nat.add_0_r in Hsame. naive_solver. }
    edestruct IH as (w' & evs & Hex & Htr & Hsl & Hn & Hfs); [|rewrite Hex].
    + intros i Hi. simpl. specialize (Hsame (S i) ltac:(lia)).
      by replace (S (n_today w + i)) with (n_today w + S i)%nat by lia.
    + simpl in *. eexists _, (_ :: _ :: evs). split; [done|].
      rewrite Htr, <- !app_assoc. simpl. split; [done|]. simpl.
      repeat split; try done; [rewrite Hsl|]; lia.
Qed.

End WaitFacts.

(** ** Capturing frames *)

Section CaptureFacts.

Variable env : Env.

Lemma frame_name_inj (a b : Z) : 0 ≤ a → 0 ≤ b → frame_name a = frame_name b → a = b.
Proof.
  unfold frame_name. intros Ha Hb Heq.
  assert (String.length (Fmt.format_0d 6 a) = String.length (Fmt.format_0d 6 b)) as Hlen.
  { apply (f_equal String.length) in Heq.
    rewrite !FmtFacts.string_app_length in Heq. lia. }
  apply FmtFacts.string_app_inj_length in Heq as [Heq _]; [|done].
  by apply (FmtFacts.format_0d_inj 6); [lia|..].
Qed.

Lemma path_join_inj (dir : path) (a b : string) : dir // a = dir // b → a = b.
Proof. unfold path_join. intros H. apply app_inv_head in H. by simplify_eq. Qed.

Lemma removelast_path_join (dir : path) (a : string) : removelast (dir // a) = dir.
Proof. unfold path_join. apply removelast_last. Qed.

(** A camera failure: the cycle is skipped, nothing is written. *)
Lemma capture_frame_no_frame (self : Daemon) (w : World) :
  cam_read_at env (n_read w) = None →
  exec env (capture_frame self) w
  = (Returned self,
     emit (Log WARNING MsgFailedCapture) tt (emit CapRead None (next_read w))).
Proof. intros H. simpl. unfold perform. simpl. by rewrite H. Qed.

(** A stored frame: the file [seq] is written and [seq] advances. *)
Lemma capture_frame_written (self : Daemon) (w : World) (f : frame) :
  cam_read_at env (n_read w) = Some f →
  imwrite_at env (n_imwrite w) = Written →
  let filename := current_dir self // frame_name (seq self) in
  exec env (capture_frame self) w
  = (Returned (set_seq (seq self + 1) self),
     emit (Log INFO (MsgCaptured filename)) tt
       (emit (Imwrite filename f 85) (inr true)
          (set_fs (<[filename := jpeg_encode env 85 f]> (fs w))
             (next_imwrite (emit CapRead (Some f) (next_read w)))))).
Proof. intros Hr Hw. run_exec. rewrite Hr. run_exec. by rewrite Hw. Qed.

(** [imwrite] returning [False]: the result is not looked at. *)
Lemma capture_frame_not_written (self : Daemon) (w : World) (f : frame) partial :
  cam_read_at env (n_read w) = Some f →
  imwrite_at env (n_imwrite w) = NotWritten partial →
  let filename := current_dir self // frame_name (seq self) in
  exec env (capture_frame self) w
  = (Returned (set_seq (seq self + 1) self),
     emit (Log INFO (MsgCaptured filename)) tt
       (emit (Imwrite filename f 85) (inr false)
          (set_fs (leave filename partial (fs w))
             (next_imwrite (emit CapRead (Some f) (next_read w)))))).
Proof. intros Hr Hw. run_exec. rewrite Hr. run_exec. by rewrite Hw. Qed.

(** [imwrite] raising: the exception leaves [capture_frame]. *)
Lemma capture_frame_raises (self : Daemon) (w : World) (f : frame) :
  cam_read_at env (n_read w) = Some f →
  imwrite_at env (n_imwrite w) = WriteRaises →
  let filename := current_dir self // frame_name (seq self) in
  exec env (capture_frame self) w
  = (Raised Cv2Error,
     emit (Imwrite filename f 85) (inl Cv2Error)
       (next_imwrite (emit CapRead (Some f) (next_read w)))).
Proof. intros Hr Hw. run_exec. rewrite Hr. run_exec. by rewrite Hw. Qed.

(** [N] successful cycles store the [N] frames under consecutive numbers. *)
Lemma captures_exec (frames : list frame) (self : Daemon) (w : World) :
  (∀ i f, frames !! i = Some f → cam_read_at env (n_read w + i) = Some f) →
  (∀ i, (i < length frames)%nat → imwrite_at env (n_imwrite w + i) = Written) →
  ∃ w',
    exec env (captures (length frames) self) w
    = (Returned (set_seq (seq self + Z.of_nat (length frames)) self), w')
    ∧ fs w' = store_frames env (current_dir self) (seq self) frames (fs w)
    ∧ n_read w' = (n_read w + length frames)%nat
    ∧ n_imwrite w' = (n_imwrite w + length frames)%nat
    ∧ n_today w' = n_today w.
Proof.
  revert self w. induction frames as [|f frames IH]; intros self w Hcam Hwr.
  - exists w. simpl. rewrite Z.add_0_r, !Nat.add_0_r.
    by destruct self.
  - cbn [captures length]. rewrite exec_bind.
    rewrite (capture_frame_written self w f).
    2: { specialize (Hcam O f eq_refl). by rewrite Nat.add_0_r in Hcam. }
    2: { specialize (Hwr O ltac:(simpl; lia)). by rewrite Nat.add_0_r in Hwr. }
    match goal with |- context [exec env (captures _ ?s) ?w1] =>
      destruct (IH s w1) as (w' & Hex & Hfs & Hnr & Hnw & Hnt) end.
    + intros i g Hg. simpl. specialize (Hcam (S i) g Hg).
      by replace (S (n_read w + i)) with (n_read w + S i)%nat by lia.
    + intros i Hi. simpl. specialize (Hwr (S i) ltac:(simpl; lia)).
      by replace (S (n_imwrite w + i)) with (n_imwrite w + S i)%nat by lia.
    + exists w'. rewrite Hex. simpl in *. repeat split; try done; try lia.
      unfold set_seq. simpl. do 3 f_equal. lia.
Qed.

Lemma store_frames_other dir s frames files (p : path) :
  (∀ i, (i < length frames)%nat → p ≠ dir // frame_name (s + Z.of_nat i)) →
  store_frames env dir s frames files !! p = files !! p.
Proof.
  revert s files. induction frames as [|f frames IH]; intros s files Hne; [done|].
  simpl. rewrite IH.
  - apply lookup_insert_ne. specialize (Hne O ltac:(simpl; lia)).
    rewrite Z.add_0_r in Hne. done.
  - intros i Hi. specialize (Hne (S i) ltac:(simpl; lia)).
    by replace (s + 1 + Z.of_nat i) with (s + Z.of_nat (S i)) by lia.
Qed.

Lemma store_frames_at dir s frames files (i : nat) (f : frame) :
  0 ≤ s → frames !! i = Some f →
  store_frames env dir s frames files !! (dir // frame_name (s + Z.of_nat i))
  = Some (jpeg_encode env 85 f).
Proof.
  revert s files i. induction frames as [|g frames IH]; intros s files i Hs Hi; [done|].
  destruct i as [|i]; simpl in Hi; cbn [store_frames].
  - simplify_eq. rewrite Z.add_0_r. rewrite store_frames_other.
    + apply lookup_insert_eq.
    + intros j _ Heq. apply path_join_inj, frame_name_inj in Heq; lia.
  - replace (s + Z.of_nat (S i)) with (s + 1 + Z.of_nat i) by lia.
    apply IH; [lia | done].
Qed.

Lemma elem_of_frame_names (n : nat) (name : string) :
  name ∈ frame_names n ↔ ∃ k, 1 ≤ k ≤ Z.of_nat n ∧ name = frame_name k.
Proof.
  unfold frame_names. rewrite list_elem_of_fmap. split.
  - intros (k & -> & Hk). apply elem_of_seqZ in Hk. exists k. split; [lia | done].
  - intros (k & Hk & ->). exists k. split; [done|]. apply elem_of_seqZ. lia.
Qed.

Lemma frame_names_NoDup (n : nat) : NoDup (frame_names n).
Proof.
  unfold frame_names. apply NoDup_fmap_2_strong; [|apply NoDup_seqZ].
  intros a b Ha%elem_of_seqZ Hb%elem_of_seqZ Heq.
  apply frame_name_inj in Heq; lia.
Qed.

Lemma frame_names_length (n : nat) : length (frame_names n) = n.
Proof. unfold frame_names. rewrite length_fmap, length_seqZ. lia. Qed.

(** Below one million, a frame name is six digits and the extension. *)
Lemma frame_name_six_digits (k : Z) :
  0 ≤ k < 1000000 → frame_name k = Fmt.fixed 6 (Z.to_N k) +:+ ".jpg".
Proof.
  intros Hk. unfold frame_name. rewrite FmtFacts.format_0d_fixed; [done | lia |].
  change (10 ^ Z.of_nat 6) with 1000000. lia.
Qed.

(** Below one million, the order of the names is the order of the numbers. *)
Lemma frame_name_ltb (a b : Z) :
  0 ≤ a < 1000000 → 0 ≤ b < 1000000 →
  String.ltb (frame_name a) (frame_name b) = bool_decide (a < b).
Proof.
  intros Ha Hb. unfold String.ltb.
  rewrite !frame_name_six_digits by done.
  rewrite FmtFacts.compare_app by (by rewrite !FmtFacts.fixed_length).
  rewrite FmtFacts.fixed_compare.
  2,3: apply FmtFacts.to_N_lt_pow; change (10 ^ Z.of_nat 6) with 1000000; lia.
  rewrite FmtFacts.compare_refl.
  destruct (N.compare_spec (Z.to_N a) (Z.to_N b)) as [He|Hl|Hg].
  - apply Z2N.inj in He; [|lia..]. by rewrite bool_decide_false by lia.
  - apply Z2N.inj_lt in Hl; [|lia..]. by rewrite bool_decide_true by lia.
  - apply Z2N.inj_lt in Hg; [|lia..]. by rewrite bool_decide_false by lia.
Qed.

End CaptureFacts.

(** ** The frame store within one day *)

(** C2, as amended.  [N] successful capture-and-store cycles from a fresh
    bucket (sequence number 1, empty directory) leave exactly the [N] files
    numbered 1 to [N] in the day's directory, each holding its frame.  As
    long as [N] stays below one million, every name is six zero-padded
    digits followed by the extension, and the lexical order of the names is
    the capture order. *)
Theorem captures_fill_fresh_bucket (env : Env) (frames : list frame)
    (self : Daemon) (w : World) :
  seq self = 1 →
  (∀ name, fs w !! (current_dir self // name) = None) →
  (∀ i f, frames !! i = Some f → cam_read_at env (n_read w + i) = Some f) →
  (∀ i, (i < length frames)%nat → imwrite_at env (n_imwrite w + i) = Written) →
  ∃ self' w',
    exec env (captures (length frames) self) w = (Returned self', w')
    ∧ seq self' = 1 + Z.of_nat (length frames)
    ∧ (∀ name, is_Some (fs w' !! (current_dir self // name))
               ↔ name ∈ frame_names (length frames))
    ∧ NoDup (frame_names (length frames))
    ∧ length (frame_names (length frames)) = length frames
    ∧ (∀ i f, frames !! i = Some f →
         fs w' !! (current_dir self // frame_name (1 + Z.of_nat i))
         = Some (jpeg_encode env 85 f))
    ∧ (Z.of_nat (length frames) < 1000000 →
       (∀ k, 1 ≤ k ≤ Z.of_nat (length frames) →
          frame_name k = Fmt.fixed 6 (Z.to_N k) +:+ ".jpg"
          ∧ String.length (frame_name k) = 10%nat)
       ∧ (∀ a b, 1 ≤ a ≤ Z.of_nat (length frames) →
                 1 ≤ b ≤ Z.of_nat (length frames) →
                 String.ltb (frame_name a) (frame_name b) = true ↔ a < b)).
Proof.
  intros Hseq Hfresh Hcam Hwr.
  destruct (captures_exec env frames self w Hcam Hwr) as (w' & Hex & Hfs & _).
  eexists _, w'. split; [exact Hex|]. rewrite Hseq in *.
  split; [done|]. split; [|split; [apply frame_names_NoDup|]].
  - intros name. rewrite elem_of_frame_names, Hfs. split.
    + intros Hsome.
      destruct (decide (name ∈ frame_names (length frames))) as [Hin|Hout].
      * by apply elem_of_frame_names.
      * rewrite store_frames_other, Hfresh in Hsome; [by destruct Hsome|].
        intros i Hi Heq. apply path_join_inj in Heq. apply Hout.
        apply elem_of_frame_names. exists (1 + Z.of_nat i). split; [lia | done].
    + intros (k & Hk & ->).
      destruct (lookup_lt_is_Some_2 frames (Z.to_nat (k - 1))) as [f Hf]; [lia|].
      pose proof (store_frames_at env (current_dir self) 1 frames (fs w) _ f
                    ltac:(lia) Hf) as Hat.
      replace (1 + Z.of_nat (Z.to_nat (k - 1))) with k in Hat by lia.
      by rewrite Hat.
  - split; [apply frame_names_length|]. split.
    + intros i f Hf. rewrite Hfs. by apply store_frames_at.
    + intros Hbound. split.
      * intros k Hk. rewrite frame_name_six_digits by lia. split; [done|].
        rewrite FmtFacts.string_app_length, FmtFacts.fixed_length. done.
      * intros a b Ha Hb. rewrite frame_name_ltb by lia.
        by rewrite bool_decide_eq_true.
Qed.

Lemma captures_fill_fresh_bucket_witness :
  ∃ self' w',
    exec Scenario.all_well (captures 3 Scenario.fresh_daemon) (Scenario.world ∅)
    = (Returned self', w')
    ∧ seq self' = 4
    ∧ frame_names 3 = ["000001.jpg"; "000002.jpg"; "000003.jpg"].
Proof.
  destruct (captures_fill_fresh_bucket Scenario.all_well
              [Scenario.picture; Scenario.picture; Scenario.picture]
              Scenario.fresh_daemon (Scenario.world ∅))
    as (self' & w' & Hex & Hseq & _); [reflexivity | | | |].
  - intros name. apply lookup_empty.
  - intros i f Hf. apply list_elem_of_lookup_2 in Hf.
    repeat (apply elem_of_cons in Hf as [->|Hf]; [reflexivity|]).
    by apply elem_of_nil in Hf.
  - reflexivity.
  - exists self', w'. split; [exact Hex|]. split; [exact Hseq | reflexivity].
Defined.

(** C2 as stated fails at the millionth frame of a day: its name has seven
    digits and sorts before the names of the frames captured earlier. *)
Lemma captures_millionth_frame_name :
  ∃ self' w',
    exec Scenario.all_well (captures (Z.to_nat 1000000) Scenario.fresh_daemon)
      (Scenario.world ∅)
    = (Returned self', w')
    ∧ is_Some (fs w' !! (current_dir Scenario.fresh_daemon // "999999.jpg"))
    ∧ is_Some (fs w' !! (current_dir Scenario.fresh_daemon // "1000000.jpg"))
    ∧ frame_name 1000000 = "1000000.jpg"
    ∧ String.length (Fmt.format_0d 6 1000000) = 7%nat
    ∧ String.ltb (frame_name 1000000) (frame_name 999999) = true.
Proof.
  pose proof (length_replicate (Z.to_nat 1000000) Scenario.picture) as Hlen.
  assert (∀ i f, replicate (Z.to_nat 1000000) Scenario.picture !! i = Some f →
                 f = Scenario.picture) as Hall.
  { intros i f Hf. by apply lookup_replicate in Hf as [-> _]. }
  assert (∀ i, (i < Z.to_nat 1000000)%nat →
               replicate (Z.to_nat 1000000) Scenario.picture !! i
               = Some Scenario.picture) as Hsome.
  { intros i Hi. by apply lookup_replicate_2. }
  revert Hlen Hall Hsome.
  generalize (replicate (Z.to_nat 1000000) Scenario.picture) as frames.
  intros frames Hlen Hall Hsome.
  destruct (captures_exec Scenario.all_well frames Scenario.fresh_daemon
              (Scenario.world ∅)) as (w' & Hex & Hfs & _).
  { intros i f Hf. apply Hall in Hf as ->. reflexivity. }
  { intros i _. reflexivity. }
  rewrite Hlen in Hex. eexists _, w'. split; [exact Hex|].
  assert (∀ k, 1 ≤ k ≤ 1000000 →
            is_Some (fs w' !! (current_dir Scenario.fresh_daemon // frame_name k)))
    as Hin.
  { intros k Hk. rewrite Hfs.
    pose proof (store_frames_at Scenario.all_well
                  (current_dir Scenario.fresh_daemon) 1 frames ∅
                  (Z.to_nat (k - 1)) Scenario.picture ltac:(lia)) as Hat.
    replace (1 + Z.of_nat (Z.to_nat (k - 1))) with k in Hat by lia.
    change (seq Scenario.fresh_daemon) with 1.
    change (fs (Scenario.world ∅)) with (∅ : gmap path bytes).
    rewrite Hat; [eexists; reflexivity|]. apply Hsome. lia. }
  split; [|split].
  - apply (Hin 999999). lia.
  - apply (Hin 1000000). lia.
  - repeat split; vm_compute; reflexivity.
Qed.

(** C6 at the failing input.  When [cv2.imwrite] fails by returning
    [False], [capture_frame] raises nothing, logs the frame as captured and
    advances the sequence number. *)
Theorem imwrite_failure_is_ignored (env : Env) (self : Daemon) (w : World)
    (f : frame) (partial : option bytes) :
  cam_read_at env (n_read w) = Some f →
  imwrite_at env (n_imwrite w) = NotWritten partial →
  let filename := current_dir self // frame_name (seq self) in
  ∃ w',
    exec env (capture_frame self) w = (Returned (set_seq (seq self + 1) self), w')
    ∧ fs w' = leave filename partial (fs w)
    ∧ last (trace w') = Some (Ev (Log INFO (MsgCaptured filename)) tt).
Proof.
  intros Hr Hw filename. eexists. split; [by apply capture_frame_not_written|].
  split; [done|]. simpl. apply last_snoc.
Qed.

Lemma imwrite_failure_is_ignored_witness :
  let env := Scenario.with_imwrite (λ _, NotWritten None) Scenario.all_well in
  ∃ w',
    exec env (capture_frame Scenario.fresh_daemon) (Scenario.world ∅)
    = (Returned (set_seq 2 Scenario.fresh_daemon), w')
    ∧ fs w' = ∅
    ∧ last (trace w')
      = Some (Ev (Log INFO (MsgCaptured ["data"; "images"; "2024-01-01"; "000001.jpg"])) tt).
Proof.
  exact (imwrite_failure_is_ignored
           (Scenario.with_imwrite (λ _, NotWritten None) Scenario.all_well)
           Scenario.fresh_daemon (Scenario.world ∅) Scenario.picture None
           eq_refl eq_refl).
Defined.

(** When [cv2.imwrite] raises instead, the exception leaves the loop of
    [run]: nothing between the call and the thread's end handles it. *)
Lemma imwrite_exception_ends_loop (cfg : Config) (env : Env) (self : Daemon)
    (w : World) (f : frame) (turns : nat) :
  running self = true →
  today_at env (n_today w) = current_day self →
  cam_read_at env (n_read w) = Some f →
  imwrite_at env (n_imwrite w) = WriteRaises →
  (exec env (run_loop cfg (S turns) self) w).1 = Raised Cv2Error.
Proof.
  intros Hrun Hday Hr Hw. cbn [run_loop]. rewrite Hrun.
  rewrite exec_bind. unfold iteration. rewrite exec_bind, exec_call. simpl answer.
  rewrite Hday, bool_decide_false by naive_solver.
  cbn [fst snd]. rewrite exec_bind. cbn [exec]. rewrite exec_bind.
  rewrite capture_frame_raises with (f := f); done.
Qed.

(** ** Starting the daemon *)

Lemma init_exec (cfg : Config) (env : Env) (w : World) :
  let today := today_at env (n_today w) in
  let dir := IMAGES_DIR cfg // isoformat today in
  exec env (init cfg) w
  = (Returned {| cap := false; seq := 1; running := false;
                 width := FRAME_WIDTH cfg; height := FRAME_HEIGHT cfg;
                 interval := CAPTURE_INTERVAL_SECONDS cfg;
                 current_day := today; current_dir := dir |},
     emit (Mkdir dir) tt (emit DateToday today (next_today w))).
Proof. reflexivity. Qed.

(** C10.  [__init__] sets the sequence number to 1 whatever the day's
    directory holds (it reads no file), and the successful captures that
    follow store their frames under the numbers 1, 2, ... from
    [000001.jpg] on, replacing the files of these names left by an earlier
    run and leaving every other file as it was. *)
Theorem restart_overwrites_from_one (cfg : Config) (env : Env)
    (frames : list frame) (w : World) :
  (∀ i f, frames !! i = Some f → cam_read_at env (n_read w + i) = Some f) →
  (∀ i, (i < length frames)%nat → imwrite_at env (n_imwrite w + i) = Written) →
  ∃ self w1,
    exec env (init cfg) w = (Returned self, w1)
    ∧ seq self = 1
    ∧ current_dir self = IMAGES_DIR cfg // isoformat (today_at env (n_today w))
    ∧ fs w1 = fs w
    ∧ (∀ files, (exec env (init cfg) (set_fs files w)).1 = Returned self)
    ∧ frame_name 1 = "000001.jpg"
    ∧ ∃ self' w2,
        exec env (captures (length frames) self) w1 = (Returned self', w2)
        ∧ seq self' = 1 + Z.of_nat (length frames)
        ∧ (∀ i f, frames !! i = Some f →
             fs w2 !! (current_dir self // frame_name (1 + Z.of_nat i))
             = Some (jpeg_encode env 85 f))
        ∧ (∀ p, (∀ i, (i < length frames)%nat →
                      p ≠ current_dir self // frame_name (1 + Z.of_nat i)) →
                fs w2 !! p = fs w !! p).
Proof.
  intros Hcam Hwr. eexists _, _. split; [apply init_exec|].
  do 5 (split; [reflexivity|]).
  match goal with |- context [exec env (captures _ ?s) ?w0] =>
    destruct (captures_exec env frames s w0 Hcam Hwr) as (w2 & Hex & Hfs & _) end.
  eexists _, w2. split; [exact Hex|]. split; [reflexivity|]. split.
  - intros i f Hf. rewrite Hfs. by apply store_frames_at.
  - intros p Hp. rewrite Hfs. by apply store_frames_other.
Qed.

Lemma restart_overwrites_from_one_witness :
  let dir := ["data"; "images"; "2024-01-01"] in
  let old : gmap path bytes :=
    {[ dir // "000001.jpg" := [Byte.x07]; dir // "000002.jpg" := [Byte.x08] ]} in
  ∃ self w1,
    exec Scenario.all_well (init Scenario.cfg) (Scenario.world old) = (Returned self, w1)
    ∧ seq self = 1
    ∧ ∃ self' w2,
        exec Scenario.all_well (captures 1 self) w1 = (Returned self', w2)
        ∧ fs w2 !! (dir // "000001.jpg") = Some Scenario.picture
        ∧ fs w2 !! (dir // "000002.jpg") = Some [Byte.x08].
Proof.
  intros dir old.
  destruct (restart_overwrites_from_one Scenario.cfg Scenario.all_well
              [Scenario.picture] (Scenario.world old))
    as (self & w1 & Hinit & Hseq & Hdir & _ & _ & _ & self' & w2 & Hex & _ & Hat & Hother).
  - intros [|i] f Hf; simplify_eq/=; reflexivity.
  - reflexivity.
  - exists self, w1. split; [exact Hinit|]. split; [exact Hseq|].
    exists self', w2. split; [exact Hex|]. split.
    + specialize (Hat O Scenario.picture eq_refl). rewrite Hdir in Hat. exact Hat.
    + rewrite Hother; [reflexivity|].
      intros i Hi. rewrite Hdir. simpl in Hi.
      assert (i = O) as -> by lia. vm_compute. discriminate.
Defined.

(** ** One turn of the loop *)

Section IterationFacts.

Variable cfg : Config.
Variable env : Env.

(** A turn that finds the date changed. *)
Lemma iteration_rollover (self : Daemon) (w : World) :
  today_at env (n_today w) ≠ current_day self →
  exec env (iteration cfg self) w
  = match exec env (capture_frame (new_bucket cfg env self w)) (rolled_over cfg env self w) with
    | (Returned self', w') =>
        match exec env (wait (Z.to_nat (interval self')) self') w' with
        | (Returned _, w'') => (Returned self', w'')
        | (Raised e, w'') => (Raised e, w'')
        end
    | (Raised e, w') => (Raised e, w')
    end.
Proof.
  intros Hne. unfold iteration.
  rewrite exec_bind, exec_call. simpl answer. cbn [fst snd].
  rewrite bool_decide_true by done.
  rewrite exec_bind. unfold finalize_day_async.
  rewrite exec_bind, exec_call. simpl answer. cbn [fst snd].
  rewrite exec_bind, exec_call. simpl answer. cbn [fst snd]. cbn [exec].
  rewrite exec_bind. fold (rolled_over cfg env self w). fold (new_bucket cfg env self w).
  destruct (exec env (capture_frame _) _) as [[self'|e] w']; [|done].
  rewrite exec_bind. by destruct (exec env (wait _ _) _) as [[[]|e] w''].
Qed.

(** A turn that finds the date unchanged. *)
Lemma iteration_same_day (self : Daemon) (w : World) :
  today_at env (n_today w) = current_day self →
  exec env (iteration cfg self) w
  = match exec env (capture_frame self)
            (emit DateToday (today_at env (n_today w)) (next_today w)) with
    | (Returned self', w') =>
        match exec env (wait (Z.to_nat (interval self')) self') w' with
        | (Returned _, w'') => (Returned self', w'')
        | (Raised e, w'') => (Raised e, w'')
        end
    | (Raised e, w') => (Raised e, w')
    end.
Proof.
  intros Heq. unfold iteration.
  rewrite exec_bind, exec_call. simpl answer. cbn [fst snd].
  rewrite bool_decide_false by naive_solver.
  rewrite exec_bind. cbn [exec]. rewrite exec_bind.
  destruct (exec env (capture_frame _) _) as [[self'|e] w']; [|done].
  rewrite exec_bind. by destruct (exec env (wait _ _) _) as [[[]|e] w''].
Qed.

(** On a change of date the first thing a turn does after reading the
    clock is to start the job on the bucket it is about to leave. *)
Lemma iteration_rollover_trace (self : Daemon) (w : World) :
  today_at env (n_today w) ≠ current_day self →
  ∃ rest,
    trace (exec env (iteration cfg self) w).2
    = trace w
      ++ Ev DateToday (today_at env (n_today w))
      :: Ev (ThreadStart (FinalizeJob (current_day self) (current_dir self))) tt
      :: Ev (Mkdir (IMAGES_DIR cfg // isoformat (today_at env (n_today w)))) tt
      :: rest.
Proof.
  intros Hne. rewrite iteration_rollover by done.
  destruct (exec_trace_extends env (capture_frame (new_bucket cfg env self w))
              (rolled_over cfg env self w)) as [evs1 H1].
  destruct (exec env (capture_frame _) _) as [[self'|e] w'] eqn:Hc; simpl in H1.
  - destruct (exec_trace_extends env (wait (Z.to_nat (interval self')) self') w')
      as [evs2 H2].
    destruct (exec env (wait _ _) _) as [[[]|e] w'']; simpl in H2 |- *;
      rewrite H2, H1, <- !app_assoc; simpl; eauto.
  - simpl. rewrite H1, <- !app_assoc. simpl. eauto.
Qed.

End IterationFacts.

(** C9.  The wait between two captures sleeps one second at a time and
    reads the date after each second.  If the date first differs from the
    bucket's at the reading that follows the [k + 1]-th second (so the
    change happened during that second at the latest), the wait ends there:
    it has slept [k + 1] seconds, one second at a time, not the full
    interval; and the turn of the loop that follows starts the finalization
    job before it sleeps again. *)
Theorem wait_ends_one_tick_after_change (cfg : Config) (env : Env)
    (self : Daemon) (w : World) (k : nat) :
  (k < Z.to_nat (interval self))%nat →
  (∀ i, (i < k)%nat → today_at env (n_today w + i) = current_day self) →
  today_at env (n_today w + k) ≠ current_day self →
  ∃ w' evs,
    exec env (wait (Z.to_nat (interval self)) self) w = (Returned tt, w')
    ∧ trace w' = trace w ++ evs
    ∧ slept evs = Z.of_nat k + 1
    ∧ slept evs ≤ interval self
    ∧ Forall (λ ev, sleep_of ev ≤ 1) evs
    ∧ (today_at env (n_today w') ≠ current_day self →
       ∃ rest,
         trace (exec env (iteration cfg self) w').2
         = trace w'
           ++ Ev DateToday (today_at env (n_today w'))
           :: Ev (ThreadStart (FinalizeJob (current_day self) (current_dir self))) tt
           :: Ev (Mkdir (IMAGES_DIR cfg // isoformat (today_at env (n_today w')))) tt
           :: rest).
Proof.
  intros Hk Hsame Hdiff.
  destruct (wait_until_change env self _ k w Hk Hsame Hdiff)
    as (w' & evs & Hex & Htr & Hsl & Hall & _ & _).
  exists w', evs. repeat split; try done; try lia.
  apply iteration_rollover_trace.
Qed.

Lemma wait_ends_one_tick_after_change_witness :
  let clock := λ n : nat, if (n <? 1)%nat then Scenario.day1 else Scenario.day2 in
  let env := Scenario.with_clock clock Scenario.all_well in
  let self := set_seq 2
    {| cap := true; seq := 1; running := true; width := 1280; height := 720;
       interval := 300; current_day := Scenario.day1;
       current_dir := ["data"; "images"; "2024-01-01"] |} in
  ∃ w' evs,
    exec env (wait (Z.to_nat 300) self) (Scenario.world ∅) = (Returned tt, w')
    ∧ trace w' = evs
    ∧ slept evs = 2.
Proof.
  intros clock env self.
  destruct (wait_ends_one_tick_after_change Scenario.cfg env self (Scenario.world ∅) 1)
    as (w' & evs & Hex & Htr & Hsl & _).
  - simpl. lia.
  - intros i Hi. assert (i = O) as -> by lia. reflexivity.
  - simpl. discriminate.
  - exists w', evs. split; [exact Hex|]. split; [exact Htr | exact Hsl].
Defined.

(** ** Exceptions that [except Exception] catches *)

Section ExceptionFacts.

Variable env : Env.

Lemma answer_usual {X} (o : op X) (w : World) : usual_answer o (answer env o w).1.
Proof. destruct o; simpl; try done; repeat case_match; simplify_eq/=; done. Qed.

Lemma raises_Exception_only_exec {A} (p : Prog A) (w : World) (e : exn) :
  raises_Exception_only p → (exec env p w).1 = Raised e → is_Exception e = true.
Proof.
  intros Hp. revert w. induction Hp as [a|e' He'|X o k _ IH]; intros w; simpl.
  - done.
  - by intros [= <-].
  - unfold perform. pose proof (answer_usual o w) as Hu.
    destruct (answer env o w) as [r w']. by apply IH.
Qed.

Lemma raises_Exception_only_bind {A B} (p : Prog A) (f : A → Prog B) :
  raises_Exception_only p → (∀ a, raises_Exception_only (f a)) →
  raises_Exception_only (bind p f).
Proof.
  intros Hp Hf. induction Hp as [a|e He|X o k _ IH]; simpl;
    [done | by constructor | constructor; auto].
Qed.

Lemma raises_Exception_only_call {X} (o : op X) : raises_Exception_only (call o).
Proof. constructor. intros. constructor. Qed.

Lemma raises_Exception_only_call_raising {X} (o : op (exn + X)) :
  (∀ e, usual_answer o (inl e) → is_Exception e = true) →
  raises_Exception_only (call_raising o).
Proof. intros H. constructor. intros [e|x] Hu; constructor. by apply H. Qed.

Lemma subprocess_run_raises (c : command) : raises_Exception_only (subprocess_run c).
Proof. constructor. intros [] _; by constructor. Qed.

Lemma remove_all_raises (ts_files : list path) : raises_Exception_only (remove_all ts_files).
Proof. induction ts_files; simpl; constructor; auto. Qed.

Lemma concat_videos_fast_raises (video_paths : list path) (outpath : path) :
  raises_Exception_only (concat_videos_fast video_paths outpath).
Proof.
  unfold concat_videos_fast.
  apply raises_Exception_only_bind; [apply raises_Exception_only_call|]. intros _.
  generalize (@nil path) as ts_files.
  induction video_paths as [|v rest IH]; intros ts_files; simpl.
  - constructor. intros [] _;
      (apply raises_Exception_only_bind; [apply remove_all_raises|]);
      intros _; by constructor.
  - constructor. intros [] _; [apply IH|]. simpl.
    apply raises_Exception_only_bind; [apply remove_all_raises|].
    intros _. by constructor.
Qed.

Lemma merge_daily_into_master_raises (master_path day_video_path : path) :
  raises_Exception_only (merge_daily_into_master master_path day_video_path).
Proof.
  unfold merge_daily_into_master.
  apply raises_Exception_only_bind; [apply raises_Exception_only_call|].
  intros []; cbn [negb].
  - apply raises_Exception_only_bind; [apply concat_videos_fast_raises|]. intros _.
    apply raises_Exception_only_bind; [|by constructor].
    by apply raises_Exception_only_call_raising.
  - apply raises_Exception_only_bind; [apply subprocess_run_raises|by constructor].
Qed.

Lemma send_file_telegram_raises (cfg : Config) (file_path : path) (caption : string) :
  raises_Exception_only (send_file_telegram cfg file_path caption).
Proof.
  unfold send_file_telegram. destruct (not_configured cfg).
  { apply raises_Exception_only_call. }
  apply raises_Exception_only_bind; [by apply raises_Exception_only_call_raising|].
  intros st_size. destruct (too_large cfg st_size).
  { apply raises_Exception_only_call. }
  apply raises_Exception_only_bind; [by apply raises_Exception_only_call_raising|].
  intros _.
  apply raises_Exception_only_bind; [apply raises_Exception_only_call|].
  intros _. apply raises_Exception_only_call.
Qed.

Lemma make_video_from_images_raises (cfg : Config) (day_dir out_mp4 : path) (fps : Z) :
  raises_Exception_only (make_video_from_images cfg day_dir out_mp4 fps).
Proof.
  unfold make_video_from_images.
  apply raises_Exception_only_bind; [apply raises_Exception_only_call|].
  intros _. apply subprocess_run_raises.
Qed.

(** Whatever fails in a finalization job is caught and logged: the job
    itself always returns. *)
Lemma job_returns (cfg : Config) (day : date) (dirpath : path) (w : World) :
  ∃ w', exec env (job cfg day dirpath) w = (Returned tt, w').
Proof.
  unfold job. rewrite exec_try_except.
  match goal with |- context [exec env ?body w] =>
    pose proof (raises_Exception_only_exec body w) as Hsafe;
    destruct (exec env body w) as [[[]|e] w1] end.
  - eauto.
  - rewrite (Hsafe e); [rewrite exec_call; eauto | | done].
    apply raises_Exception_only_bind; [apply make_video_from_images_raises|intros _].
    apply raises_Exception_only_bind; [apply send_file_telegram_raises|intros _].
    apply raises_Exception_only_bind; [apply merge_daily_into_master_raises|intros _].
    apply send_file_telegram_raises.
Qed.

End ExceptionFacts.

(** ** Delivery *)

(** Below [2^53] an integer is a double. *)
Lemma round_to_double_small (n : Z) : n < 2 ^ 53 → round_to_double n = n.
Proof.
  intros Hn. unfold round_to_double.
  assert (Z.log2 n ≤ 52) as Hlog.
  { destruct (Z.le_gt_cases n 0) as [Hle|Hgt].
    - rewrite Z.log2_nonpos by done. lia.
    - apply Z.log2_lt_pow2 in Hn; [lia | done]. }
  destruct (Z.leb_spec (Z.log2 n - 52) 0); [done | lia].
Qed.

(** The comparison in megabytes is a comparison of the size in bytes, as
    the float division rounds it, with the ceiling times [1024 * 1024]. *)
Lemma too_large_bytes (cfg : Config) (st_size : Z) :
  too_large cfg st_size
  = bool_decide (MAX_TELEGRAM_MB cfg * 1024 * 1024 < round_to_double st_size).
Proof.
  unfold too_large, filesize_mb. generalize (round_to_double st_size) as size.
  intros size. destruct (Qle_bool _ _) eqn:Hle; simpl.
  - apply Qle_bool_iff in Hle. unfold Qle in Hle. simpl in Hle.
    rewrite bool_decide_false; [done | lia].
  - rewrite bool_decide_true; [done|].
    destruct (Z.lt_ge_cases (MAX_TELEGRAM_MB cfg * 1024 * 1024) size) as [|Hge];
      [done|].
    assert (Qle_bool (inject_Z size / 1024 / 1024) (inject_Z (MAX_TELEGRAM_MB cfg))
            = true) as Ht; [|congruence].
    apply Qle_bool_iff. unfold Qle. simpl. lia.
Qed.

(** From [2^53] bytes on the rounding shows: a file of [2^53 + 1] bytes is
    not too large for a ceiling of [2^33] megabytes, which is [2^53]
    bytes. *)
Lemma ceiling_is_rounded (cfg : Config) :
  MAX_TELEGRAM_MB cfg = 2 ^ 33 →
  too_large cfg (2 ^ 53 + 1) = false
  ∧ MAX_TELEGRAM_MB cfg * 1024 * 1024 < 2 ^ 53 + 1.
Proof.
  intros Hmax. rewrite too_large_bytes, Hmax. split; [|done].
  by apply bool_decide_false.
Qed.






(** ** Start-up *)

Lemma open_cam_fails (cfg : Config) (env : Env) (self : Daemon) (w : World) :
  cam_read_at env (n_read w) = None →
  (exec env (open_cam cfg self) w).1 = Raised (RuntimeError "Camera not accessible.").
Proof. intros Hr. run_exec. by rewrite Hr. Qed.

(** With no frame from the camera at start-up, [run] raises before it
    enters its loop, whatever the number of turns it would have made. *)
Lemma run_fails_at_startup (cfg : Config) (env : Env) (self : Daemon) (w : World)
    (turns : nat) :
  cam_read_at env (n_read w) = None →
  (exec env (run cfg turns self) w).1 = Raised (RuntimeError "Camera not accessible.").
Proof.
  intros Hr. unfold run. rewrite exec_bind.
  pose proof (open_cam_fails cfg env (set_running true self) w Hr) as Hopen.
  by destruct (exec env (open_cam cfg (set_running true self)) w) as [[]]; simplify_eq/=.
Qed.

(** C7 at the failing input.  With a bot token configured, a camera that
    gives no frame at start-up ends the daemon thread with [RuntimeError],
    but the process stays alive: the main thread is in [run_polling]. *)
Theorem camera_failure_with_token_keeps_process (cfg : Config) (env : Env)
    (self : Daemon) (w : World) (turns : nat) :
  TELEGRAM_BOT_TOKEN cfg ≠ EmptyString →
  cam_read_at env (n_read w) = None →
  (exec env (run cfg turns self) w).1 = Raised (RuntimeError "Camera not accessible.")
  ∧ main_blocks_on cfg = RunPolling
  ∧ process_alive cfg true = true.
Proof.
  intros Htoken Hr. split; [by apply run_fails_at_startup|].
  unfold process_alive, main_blocks_on. by rewrite bool_decide_true.
Qed.

Lemma camera_failure_with_token_keeps_process_witness :
  let env := Scenario.with_camera (λ _, None) Scenario.all_well in
  (exec env (run Scenario.cfg_telegram 5 Scenario.fresh_daemon) (Scenario.world ∅)).1
  = Raised (RuntimeError "Camera not accessible.")
  ∧ main_blocks_on Scenario.cfg_telegram = RunPolling
  ∧ process_alive Scenario.cfg_telegram true = true.
Proof.
  apply (camera_failure_with_token_keeps_process Scenario.cfg_telegram
           (Scenario.with_camera (λ _, None) Scenario.all_well)
           Scenario.fresh_daemon (Scenario.world ∅) 5).
  - discriminate.
  - reflexivity.
Defined.

(** Without a token the main thread joins the daemon thread, and the
    process ends with it. *)
Lemma camera_failure_without_token_ends_process (cfg : Config) :
  TELEGRAM_BOT_TOKEN cfg = EmptyString →
  main_blocks_on cfg = JoinDaemonThread ∧ process_alive cfg true = false.
Proof.
  intros Htoken. unfold process_alive, main_blocks_on.
  by rewrite bool_decide_false by naive_solver.
Qed.

(** ** The finalization job *)

Section JobFacts.

Variable cfg : Config.
Variable env : Env.

(** A delivery changes no file. *)
Lemma send_file_telegram_fs (file_path : path) (caption : string) (w : World) :
  fs (exec env (send_file_telegram cfg file_path caption) w).2 = fs w.
Proof.
  unfold send_file_telegram. destruct (not_configured cfg); [by rewrite exec_call|].
  run_exec. destruct (fs w !! file_path) as [b|] eqn:Hb; run_exec; [|done].
  destruct (too_large cfg _); run_exec; [done|].
  by rewrite Hb.
Qed.

End JobFacts.




(** ** Files a program leaves alone *)

(** Look up through the insertions and removals in front of a map, the
    keys being told apart by the hypotheses at hand. *)
Ltac map_lookup :=
  repeat match goal with
  | |- context [<[?i := ?x]> ?m !! ?i] => rewrite (lookup_insert_eq m i x)
  | |- context [<[?i := ?x]> ?m !! ?j] => rewrite (lookup_insert_ne m i j x) by congruence
  | |- context [delete ?i ?m !! ?i] => rewrite (lookup_delete_eq m i)
  | |- context [delete ?i ?m !! ?j] => rewrite (lookup_delete_ne m i j) by congruence
  end.

(** A path differs from each element of an explicit list. *)
Ltac not_in_list :=
  simpl; repeat (apply not_elem_of_cons; split; [done|]); apply not_elem_of_nil.

Section FileFacts.

Variable env : Env.

Lemma finish_other (o : proc_outcome) (out : path) (result : bytes)
    (files : gmap path bytes) (q : path) :
  q ≠ out → (finish o out result files).2 !! q = files !! q.
Proof.
  intros Hne. destruct o as [|[b|]]; simpl; [| |done];
    by rewrite lookup_insert_ne.
Qed.

(** A subprocess changes nothing but its output path. *)
Lemma run_command_other (c : command) (o : proc_outcome)
    (files : gmap path bytes) (q : path) :
  q ≠ command_output c → (run_command env c o files).2 !! q = files !! q.
Proof.
  intros Hne. destruct c; simpl in *; repeat case_match; subst; simpl;
    try done; by apply finish_other.
Qed.

Lemma answer_fs_other {X} (o : op X) (w : World) (q : path) :
  q ∉ op_targets o → fs (answer env o w).2 !! q = fs w !! q.
Proof.
  intros Hq. destruct o; simpl in *; try done.
  - apply not_elem_of_cons in Hq as [Hq _].
    destruct (imwrite_at env (n_imwrite w)) as [|[b|]|]; simpl; try done;
      by rewrite lookup_insert_ne.
  - apply not_elem_of_cons in Hq as [Hq _].
    pose proof (run_command_other c (proc_at env (n_proc w)) (fs w) q Hq) as H.
    by destruct (run_command env c _ _).
  - apply not_elem_of_cons in Hq as [Hq _].
    destruct (fs w !! p); simpl; [by rewrite lookup_delete_ne | done].
  - apply not_elem_of_cons in Hq as [Hq1 Hq2%not_elem_of_cons].
    destruct Hq2 as [Hq2 _].
    destruct (fs w !! src); simpl; [|done].
    by rewrite lookup_insert_ne, lookup_delete_ne.
  - by destruct (fs w !! p).
  - by destruct (fs w !! p).
Qed.

Lemma leaves_alone_exec {A} (q : path) (p : Prog A) (w : World) :
  leaves_alone q p → fs (exec env p w).2 !! q = fs w !! q.
Proof.
  intros Hp. revert w. induction Hp as [a|e|X o k Hq _ IH]; intros w; simpl;
    [done..|].
  unfold perform. pose proof (answer_fs_other o w q Hq) as Ho.
  destruct (answer env o w) as [r w1]. by rewrite IH.
Qed.

Lemma leaves_alone_bind {A B} (q : path) (p : Prog A) (f : A → Prog B) :
  leaves_alone q p → (∀ a, leaves_alone q (f a)) → leaves_alone q (bind p f).
Proof.
  intros Hp Hf. induction Hp as [a|e|X o k Hq _ IH]; simpl;
    [done | constructor | constructor; auto].
Qed.

Lemma leaves_alone_remove_all (q : path) (ts_files : list path) :
  q ∉ ts_files → leaves_alone q (remove_all ts_files).
Proof.
  induction ts_files as [|p rest IH]; intros Hq; simpl; [constructor|].
  apply not_elem_of_cons in Hq as [Hqp Hq].
  constructor; [not_in_list | auto].
Qed.

(** The concatenation writes the [.ts] files and its output path only. *)
Lemma leaves_alone_concat_videos_fast (q : path) (video_paths : list path)
    (outpath : path) :
  q ≠ outpath →
  (∀ v, v ∈ video_paths → q ≠ PurePath.with_suffix v ".ts") →
  leaves_alone q (concat_videos_fast video_paths outpath).
Proof.
  intros Hout Hts. unfold concat_videos_fast.
  apply leaves_alone_bind; [constructor; [apply not_elem_of_nil | constructor]|].
  intros _.
  assert (q ∉ @nil path) as Hacc by apply not_elem_of_nil.
  revert Hacc. generalize (@nil path) as ts_files.
  induction video_paths as [|v rest IH]; intros ts_files Hacc; simpl.
  - constructor; [not_in_list|].
    intros []; (apply leaves_alone_bind; [by apply leaves_alone_remove_all|]);
      intros _; constructor.
  - assert (q ≠ PurePath.with_suffix v ".ts") as Hv by (apply Hts; by left).
    constructor; [not_in_list|].
    intros [].
    + apply IH.
      * intros v' Hv'. apply Hts. by right.
      * apply not_elem_of_app. split; [done | not_in_list].
    + simpl. apply leaves_alone_bind; [by apply leaves_alone_remove_all|].
      intros _. constructor.
Qed.

End FileFacts.

(** ** Names of the video files *)

Section PathFacts.

Lemma with_suffix_join (dir : path) (name suffix : string) :
  PurePath.with_suffix (dir // name) suffix
  = dir // PurePath.with_suffix_name name suffix.
Proof.
  unfold PurePath.with_suffix, path_join.
  by rewrite reverse_snoc, reverse_involutive.
Qed.

Lemma with_suffix_ends (p : path) (suffix : string) :
  p = [] ∧ PurePath.with_suffix p suffix = []
  ∨ ∃ dir stem, PurePath.with_suffix p suffix = dir // (stem +:+ suffix).
Proof.
  destruct (reverse p) as [|name parents] eqn:Hrev.
  - left. apply (f_equal reverse) in Hrev. rewrite reverse_involutive in Hrev.
    subst p. by split.
  - right. unfold PurePath.with_suffix. rewrite Hrev.
    unfold PurePath.with_suffix_name. eauto.
Qed.

Lemma not_master_mp4 (stem : string) : stem +:+ ".ts" ≠ "master.mp4".
Proof.
  intros H. pose proof (f_equal String.length H) as Hlen.
  rewrite FmtFacts.string_app_length in Hlen. simpl in Hlen.
  do 7 (destruct stem as [|? stem]; [simpl in Hlen; lia|]).
  destruct stem; [|simpl in Hlen; lia].
  vm_compute in H. discriminate H.
Qed.

Lemma master_ts_name : PurePath.with_suffix_name "master.mp4" ".ts" = "master.ts".
Proof. reflexivity. Qed.

Lemma master_new_name :
  PurePath.with_suffix_name "master.mp4" ".new.mp4" = "master.new.mp4".
Proof. reflexivity. Qed.

(** No [.ts] file of the concatenation is the master itself. *)
Lemma master_not_ts (dir : path) (v : path) :
  dir // "master.mp4" ≠ PurePath.with_suffix v ".ts".
Proof.
  intros H. destruct (with_suffix_ends v ".ts") as [[_ Hnil]|(d & stem & Hv)].
  - rewrite Hnil in H. unfold path_join in H. by destruct dir.
  - rewrite Hv in H. unfold path_join in H.
    apply app_inj_tail in H as [_ H]. symmetry in H. by apply not_master_mp4 in H.
Qed.

Lemma master_not_temp (dir : path) :
  dir // "master.mp4" ≠ PurePath.with_suffix (dir // "master.mp4") ".new.mp4".
Proof.
  rewrite with_suffix_join, master_new_name. intros H.
  by apply app_inv_head in H.
Qed.

(** *** Names built from a date *)

Lemma has_char_app (c : ascii) (s t : string) :
  has_char c (s +:+ t) = has_char c s || has_char c t.
Proof.
  induction s as [|a s IH]; [done|].
  rewrite FmtFacts.string_app_cons. simpl. rewrite IH. by rewrite orb_assoc.
Qed.

Lemma rfind_app_absent (c : ascii) (s t : string) :
  has_char c s = false →
  PurePath.rfind c (s +:+ t) = (λ i, (String.length s + i)%nat) <$> PurePath.rfind c t.
Proof.
  induction s as [|a s IH]; intros Hs.
  - rewrite FmtFacts.string_app_nil_l. by destruct (PurePath.rfind c t).
  - simpl in Hs. apply orb_false_iff in Hs as [Ha Hs].
    rewrite FmtFacts.string_app_cons. simpl. rewrite (IH Hs), Ha.
    by destruct (PurePath.rfind c t).
Qed.

Lemma substring_app_l (s t : string) :
  String.substring 0 (String.length s) (s +:+ t) = s.
Proof.
  induction s as [|a s IH]; [by destruct t|].
  rewrite FmtFacts.string_app_cons. simpl. by rewrite IH.
Qed.

Lemma substring_all (t : string) : String.substring 0 (String.length t) t = t.
Proof. induction t as [|b t IHt]; [done|]. simpl. by rewrite IHt. Qed.

Lemma substring_app_r (s t : string) :
  String.substring (String.length s) (String.length t) (s +:+ t) = t.
Proof.
  induction s as [|a s IH].
  - rewrite FmtFacts.string_app_nil_l. apply substring_all.
  - rewrite FmtFacts.string_app_cons. simpl. apply IH.
Qed.

(** Exchanging the suffix of [stem.mp4], for a stem without a dot. *)
Lemma with_suffix_name_mp4 (stem new_suffix : string) :
  has_char "." stem = false → stem ≠ EmptyString →
  PurePath.with_suffix_name (stem +:+ ".mp4") new_suffix = stem +:+ new_suffix.
Proof.
  intros Hdot Hne. unfold PurePath.with_suffix_name, PurePath.suffix.
  rewrite rfind_app_absent by done. simpl fmap.
  rewrite FmtFacts.string_app_length. simpl String.length.
  assert (0 < String.length stem)%nat as Hlen by (destruct stem; [done | simpl; lia]).
  replace (0 <? String.length stem + 0)%nat with true
    by (symmetry; apply Nat.ltb_lt; lia).
  replace (String.length stem + 0 <? String.length stem + 4 - 1)%nat with true
    by (symmetry; apply Nat.ltb_lt; lia).
  simpl andb. cbv iota.
  replace (String.length stem + 4 - (String.length stem + 0))%nat
    with (String.length ".mp4") by (simpl; lia).
  rewrite Nat.add_0_r, substring_app_r. simpl String.length.
  replace (String.length stem + 4 - 4)%nat with (String.length stem) by lia.
  by rewrite substring_app_l.
Qed.

Lemma pretty_N_char_not_dot (x : N) : Ascii.eqb (pretty_N_char x) "." = false.
Proof. destruct x as [|p]; [done|]. by do 4 (destruct p as [p|p|]; try done). Qed.

Lemma fixed_no_dot (w : nat) (n : N) : has_char "." (Fmt.fixed w n) = false.
Proof.
  revert n. induction w as [|w IH]; intros n; [done|].
  rewrite FmtFacts.fixed_S, has_char_app, IH. simpl.
  by rewrite pretty_N_char_not_dot.
Qed.

(** The ISO form of a date is four, two and two digits around two dashes. *)
Lemma isoformat_fixed (d : date) :
  valid_date d →
  isoformat d
  = Fmt.fixed 4 (Z.to_N (year d)) +:+ "-" +:+ Fmt.fixed 2 (Z.to_N (month d))
      +:+ "-" +:+ Fmt.fixed 2 (Z.to_N (day d)).
Proof.
  intros (Hy & Hm & Hd). unfold isoformat.
  rewrite !FmtFacts.format_0d_fixed; [done | lia | | lia | | lia |];
    [change (10 ^ Z.of_nat 2) with 100 | change (10 ^ Z.of_nat 2) with 100
     | change (10 ^ Z.of_nat 4) with 10000]; lia.
Qed.

Lemma isoformat_length (d : date) : valid_date d → String.length (isoformat d) = 10%nat.
Proof.
  intros Hd. rewrite isoformat_fixed by done.
  rewrite !FmtFacts.string_app_length, !FmtFacts.fixed_length. done.
Qed.

Lemma isoformat_no_dot (d : date) : valid_date d → has_char "." (isoformat d) = false.
Proof.
  intros Hd. rewrite isoformat_fixed by done.
  rewrite !has_char_app, !fixed_no_dot. done.
Qed.

(** Different dates have different ISO forms, hence different directories
    and different video files. *)
Lemma isoformat_inj (a b : date) :
  valid_date a → valid_date b → isoformat a = isoformat b → a = b.
Proof.
  intros Ha Hb Heq. rewrite !isoformat_fixed in Heq by done.
  destruct Ha as (Hya & Hma & Hda), Hb as (Hyb & Hmb & Hdb).
  apply FmtFacts.string_app_inj_length in Heq as [Hy Heq];
    [|by rewrite !FmtFacts.fixed_length].
  apply FmtFacts.string_app_inj_length in Heq as [_ Heq]; [|done].
  apply FmtFacts.string_app_inj_length in Heq as [Hm Heq];
    [|by rewrite !FmtFacts.fixed_length].
  apply FmtFacts.string_app_inj_length in Heq as [_ Hd]; [|done].
  apply FmtFacts.fixed_inj in Hy, Hm, Hd;
    try (apply FmtFacts.to_N_lt_pow;
         first [change (10 ^ Z.of_nat 4) with 10000 | change (10 ^ Z.of_nat 2) with 100];
         lia).
  apply Z2N.inj in Hy, Hm, Hd; try lia.
  destruct a, b; simpl in *; congruence.
Qed.

Lemma with_suffix_daily (dir : path) (day : date) (new_suffix : string) :
  valid_date day →
  PurePath.with_suffix (dir // daily_name day) new_suffix
  = dir // (isoformat day +:+ new_suffix).
Proof.
  intros Hd. rewrite with_suffix_join. unfold daily_name.
  rewrite with_suffix_name_mp4; [done | by apply isoformat_no_dot |].
  intros Hnil. pose proof (isoformat_length day Hd) as Hlen.
  by rewrite Hnil in Hlen.
Qed.

Lemma daily_name_length (day : date) :
  valid_date day → String.length (daily_name day) = 14%nat.
Proof.
  intros Hd. unfold daily_name.
  by rewrite FmtFacts.string_app_length, isoformat_length.
Qed.

Lemma daily_ts_name_length (day : date) :
  valid_date day → String.length (daily_ts_name day) = 13%nat.
Proof.
  intros Hd. unfold daily_ts_name.
  by rewrite FmtFacts.string_app_length, isoformat_length.
Qed.

Lemma daily_name_inj (a b : date) :
  valid_date a → valid_date b → daily_name a = daily_name b → a = b.
Proof.
  intros Ha Hb Heq. unfold daily_name in Heq.
  apply FmtFacts.string_app_inj_length in Heq as [Heq _];
    [by apply isoformat_inj | by rewrite !isoformat_length].
Qed.

(** The video of a day is never named like the temporary file of a merge. *)
Lemma daily_name_not_temp (day : date) :
  valid_date day → daily_name day ≠ "master.new.mp4".
Proof.
  intros Hd Heq. unfold daily_name in Heq. rewrite isoformat_fixed in Heq by done.
  rewrite !FmtFacts.string_app_assoc in Heq.
  change "master.new.mp4" with ("mast" +:+ "er.new.mp4") in Heq.
  apply FmtFacts.string_app_inj_length in Heq as [_ Heq];
    [|by rewrite FmtFacts.fixed_length].
  rewrite FmtFacts.string_app_cons in Heq. discriminate Heq.
Qed.

End PathFacts.

(** ** The merge into the master *)

(** ** The merge into the master *)

Section MergeFacts.

Variable env : Env.

(** The merge into an existing master is the concatenation into the
    temporary file followed by [os.replace]. *)
Lemma merge_existing_exec (master day_video_path : path) (w : World) :
  is_Some (fs w !! master) →
  exec env (merge_daily_into_master master day_video_path) w
  = match exec env (concat_videos_fast [master; day_video_path]
                      (PurePath.with_suffix master ".new.mp4"))
            (emit (PathExists master) true w) with
    | (Returned _, w1) =>
        match exec env (call_raising
                          (OsReplace (PurePath.with_suffix master ".new.mp4") master))
                w1 with
        | (Returned _, w2) => (Returned master, w2)
        | (Raised e, w2) => (Raised e, w2)
        end
    | (Raised e, w1) => (Raised e, w1)
    end.
Proof.
  intros Hm. unfold merge_daily_into_master.
  rewrite exec_bind, exec_call. simpl answer. cbn [fst snd].
  rewrite bool_decide_true by done. cbn [negb].
  rewrite exec_bind.
  destruct (exec env (concat_videos_fast _ _) _) as [[[]|e] w1]; [|done].
  rewrite exec_bind.
  by destruct (exec env (call_raising _) w1) as [[[]|e] w2].
Qed.

(** The merge into an existing master when its three subprocesses
    succeed, over the names of its five files. *)
Lemma merge_existing_succeeds (master daily ts_m ts_d temp : path) (w : World)
    (m d : bytes) :
  PurePath.with_suffix master ".ts" = ts_m →
  PurePath.with_suffix daily ".ts" = ts_d →
  PurePath.with_suffix master ".new.mp4" = temp →
  NoDup [master; daily; ts_m; ts_d; temp] →
  fs w !! master = Some m →
  fs w !! daily = Some d →
  (∀ i, (i < 3)%nat → proc_at env (n_proc w + i) = ExitZero) →
  let merged := ff_concat env [ff_to_ts env m; ff_to_ts env d] in
  ∃ w',
    exec env (merge_daily_into_master master daily) w = (Returned master, w')
    ∧ fs w'
      = <[master := merged]>
          (delete temp
             (delete ts_d
                (delete ts_m
                   (<[temp := merged]>
                      (<[ts_d := ff_to_ts env d]>
                         (<[ts_m := ff_to_ts env m]> (fs w)))))))
    ∧ n_proc w' = (n_proc w + 3)%nat.
Proof.
  intros Htsm Htsd Htemp Hnd Hm Hd Hok merged.
  pose proof (Hok 0%nat ltac:(lia)) as Hp0. rewrite Nat.add_0_r in Hp0.
  pose proof (Hok 1%nat ltac:(lia)) as Hp1. rewrite Nat.add_1_r in Hp1.
  pose proof (Hok 2%nat ltac:(lia)) as Hp2.
  replace (n_proc w + 2)%nat with (S (S (n_proc w))) in Hp2 by lia.
  apply NoDup_cons in Hnd as [H1 Hnd]. apply NoDup_cons in Hnd as [H2 Hnd].
  apply NoDup_cons in Hnd as [H3 Hnd]. apply NoDup_cons in Hnd as [H4 _].
  repeat rewrite not_elem_of_cons in H1. repeat rewrite not_elem_of_cons in H2.
  repeat rewrite not_elem_of_cons in H3. repeat rewrite not_elem_of_cons in H4.
  destruct H1 as (Hmd & Hmtm & Hmtd & Hmt & _).
  destruct H2 as (Hdtm & Hdtd & Hdt & _).
  destruct H3 as (Htmtd & Htmt & _). destruct H4 as (Htdt & _).
  unfold merge_daily_into_master, concat_videos_fast. cbn [remux_all].
  rewrite Htsm, Htsd, Htemp.
  run_exec. rewrite Hm. run_exec. rewrite Hm, Hp0. run_exec.
  map_lookup. rewrite Hd, Hp1. run_exec.
  map_lookup. run_exec. rewrite Hp2. run_exec.
  map_lookup. run_exec. map_lookup. run_exec. map_lookup. run_exec.
  eexists. split; [reflexivity|]. split; [reflexivity | simpl; lia].
Qed.

(** The five files of a merge of the video of [day] have five names. *)
Lemma merge_names_distinct (dir : path) (day : date) :
  valid_date day →
  NoDup [dir // "master.mp4"; dir // daily_name day; dir // "master.ts";
         dir // daily_ts_name day; dir // "master.new.mp4"].
Proof.
  intros Hd.
  change (NoDup (path_join dir <$> ["master.mp4"; daily_name day; "master.ts";
                                    daily_ts_name day; "master.new.mp4"])).
  apply NoDup_fmap_2; [intros a b; apply path_join_inj|].
  pose proof (daily_name_length day Hd) as Hl1.
  pose proof (daily_ts_name_length day Hd) as Hl2.
  pose proof (daily_name_not_temp day Hd) as Hnt.
  repeat (apply NoDup_cons; split); try apply NoDup_nil_2;
    repeat rewrite not_elem_of_cons; repeat split; try apply not_elem_of_nil;
    try done;
    intros Heq; apply (f_equal String.length) in Heq;
    rewrite ?Hl1, ?Hl2 in Heq; by simpl in Heq.
Qed.

(** The merge of the video of [day] into an existing master, by name. *)
Lemma merge_day_succeeds (dir : path) (day : date) (w : World) (m d : bytes) :
  valid_date day →
  fs w !! (dir // "master.mp4") = Some m →
  fs w !! (dir // daily_name day) = Some d →
  (∀ i, (i < 3)%nat → proc_at env (n_proc w + i) = ExitZero) →
  let merged := ff_concat env [ff_to_ts env m; ff_to_ts env d] in
  ∃ w',
    exec env (merge_daily_into_master (dir // "master.mp4") (dir // daily_name day)) w
    = (Returned (dir // "master.mp4"), w')
    ∧ fs w'
      = <[dir // "master.mp4" := merged]>
          (delete (dir // "master.new.mp4")
             (delete (dir // daily_ts_name day)
                (delete (dir // "master.ts")
                   (<[dir // "master.new.mp4" := merged]>
                      (<[dir // daily_ts_name day := ff_to_ts env d]>
                         (<[dir // "master.ts" := ff_to_ts env m]> (fs w)))))))
    ∧ n_proc w' = (n_proc w + 3)%nat.
Proof.
  intros Hd Hm Hday Hok.
  apply merge_existing_succeeds; try done.
  - by rewrite with_suffix_join, master_ts_name.
  - by rewrite with_suffix_daily.
  - by rewrite with_suffix_join, master_new_name.
  - by apply merge_names_distinct.
Qed.


End MergeFacts.

(** X2.  When its three subprocesses succeed, the merge of a day's video
    into an existing master returns the master's path; the master then
    holds the concatenation of the old master and the day's video, the
    day's video is as before, the two [.ts] files and the temporary file
    are gone, and every other file is untouched. *)
Theorem merge_appends_day (cfg : Config) (env : Env) (day : date) (w : World)
    (m d : bytes) :
  let master := VIDEOS_DIR cfg // "master.mp4" in
  let daily := VIDEOS_DIR cfg // daily_name day in
  valid_date day →
  fs w !! master = Some m →
  fs w !! daily = Some d →
  (∀ i, (i < 3)%nat → proc_at env (n_proc w + i) = ExitZero) →
  ∃ w',
    exec env (merge_daily_into_master master daily) w = (Returned master, w')
    ∧ fs w' !! master = Some (ff_concat env [ff_to_ts env m; ff_to_ts env d])
    ∧ fs w' !! daily = Some d
    ∧ fs w' !! (VIDEOS_DIR cfg // "master.ts") = None
    ∧ fs w' !! (VIDEOS_DIR cfg // daily_ts_name day) = None
    ∧ fs w' !! (VIDEOS_DIR cfg // "master.new.mp4") = None
    ∧ (∀ q, q ∉ [master; VIDEOS_DIR cfg // "master.ts";
                 VIDEOS_DIR cfg // daily_ts_name day;
                 VIDEOS_DIR cfg // "master.new.mp4"] →
            fs w' !! q = fs w !! q).
Proof.
  intros master daily Hd Hm Hday Hok.
  destruct (merge_day_succeeds env (VIDEOS_DIR cfg) day w m d Hd Hm Hday Hok)
    as (w' & Hex & Hfs & _).
  exists w'. split; [exact Hex|]. rewrite Hfs.
  pose proof (merge_names_distinct (VIDEOS_DIR cfg) day Hd) as Hnd.
  apply NoDup_cons in Hnd as [H1 Hnd]. apply NoDup_cons in Hnd as [H2 Hnd].
  apply NoDup_cons in Hnd as [H3 Hnd]. apply NoDup_cons in Hnd as [H4 _].
  repeat rewrite not_elem_of_cons in H1. repeat rewrite not_elem_of_cons in H2.
  repeat rewrite not_elem_of_cons in H3. repeat rewrite not_elem_of_cons in H4.
  destruct H1 as (Hmd & Hmtm & Hmtd & Hmt & _).
  destruct H2 as (Hdtm & Hdtd & Hdt & _).
  destruct H3 as (Htmtd & Htmt & _). destruct H4 as (Htdt & _).
  fold master daily in Hmd, Hmtm, Hmtd, Hmt, Hdtm, Hdtd, Hdt |- *.
  repeat split; try (by map_lookup).
  intros q Hq. repeat rewrite not_elem_of_cons in Hq.
  destruct Hq as (Hq1 & Hq2 & Hq3 & Hq4 & _). by map_lookup.
Qed.

Lemma merge_appends_day_witness :
  let master := ["data"; "videos"; "master.mp4"] in
  let daily := ["data"; "videos"; "2024-01-02.mp4"] in
  let w := Scenario.world {[ master := [Byte.x01]; daily := [Byte.x02] ]} in
  ∃ w',
    exec Scenario.all_well (merge_daily_into_master master daily) w
    = (Returned master, w')
    ∧ fs w' !! master = Some [Byte.x01; Byte.x02].
Proof.
  intros master daily w.
  destruct (merge_appends_day Scenario.cfg Scenario.all_well Scenario.day2 w
              [Byte.x01] [Byte.x02]) as (w' & Hex & Hmaster & _).
  - vm_compute. repeat split; discriminate.
  - reflexivity.
  - reflexivity.
  - reflexivity.
  - exists w'. split; [exact Hex | exact Hmaster].
Defined.

(** X3.  With no master yet, the merge is a copy: when [cp] succeeds the
    master holds the bytes of the day's video and nothing else changes;
    when [cp] fails (or the day's video is missing) the merge raises
    [CalledProcessError]. *)
Theorem first_merge_copies_day (env : Env) (master daily : path) (w : World) :
  fs w !! master = None →
  (∀ d, fs w !! daily = Some d → proc_at env (n_proc w) = ExitZero →
     ∃ w', exec env (merge_daily_into_master master daily) w = (Returned master, w')
           ∧ fs w' = <[master := d]> (fs w))
  ∧ (fs w !! daily = None ∨ proc_at env (n_proc w) ≠ ExitZero →
     ∃ w', exec env (merge_daily_into_master master daily) w
           = (Raised (CalledProcessError (Cp daily master)), w')).
Proof.
  intros Hm. split.
  - intros d Hd Hok. unfold merge_daily_into_master. run_exec.
    rewrite bool_decide_false by (rewrite Hm; by intros [? ?]).
    run_exec. rewrite Hd, Hok. run_exec. eauto.
  - intros Hfail. unfold merge_daily_into_master. run_exec.
    rewrite bool_decide_false by (rewrite Hm; by intros [? ?]).
    run_exec. destruct (fs w !! daily) as [d|] eqn:Hd.
    + destruct Hfail as [?|Hfail]; [done|].
      destruct (proc_at env (n_proc w)) as [|partial]; [done|]. run_exec. eauto.
    + run_exec. eauto.
Qed.

Lemma first_merge_copies_day_witness :
  let master := ["data"; "videos"; "master.mp4"] in
  let daily := ["data"; "videos"; "2024-01-01.mp4"] in
  let w := Scenario.world {[ daily := [Byte.x05] ]} in
  ∃ w',
    exec Scenario.all_well (merge_daily_into_master master daily) w
    = (Returned master, w')
    ∧ fs w' = <[master := [Byte.x05]]> (fs w).
Proof.
  intros master daily w.
  destruct (first_merge_copies_day Scenario.all_well master daily w) as [Hcopy _].
  - reflexivity.
  - apply (Hcopy [Byte.x05]); reflexivity.
Defined.

(** X4.  Two merges made one after the other leave the master as the
    concatenation of the old master, the first day's video and the second
    day's video, in this order. *)
Theorem merges_in_sequence (cfg : Config) (env : Env) (day1 day2 : date)
    (w : World) (m a b : bytes) :
  let master := VIDEOS_DIR cfg // "master.mp4" in
  let daily1 := VIDEOS_DIR cfg // daily_name day1 in
  let daily2 := VIDEOS_DIR cfg // daily_name day2 in
  valid_date day1 → valid_date day2 → day1 ≠ day2 →
  fs w !! master = Some m →
  fs w !! daily1 = Some a →
  fs w !! daily2 = Some b →
  (∀ i, (i < 6)%nat → proc_at env (n_proc w + i) = ExitZero) →
  ∃ w1 w2,
    exec env (merge_daily_into_master master daily1) w = (Returned master, w1)
    ∧ exec env (merge_daily_into_master master daily2) w1 = (Returned master, w2)
    ∧ fs w2 !! master
      = Some (ff_concat env
                [ff_to_ts env (ff_concat env [ff_to_ts env m; ff_to_ts env a]);
                 ff_to_ts env b]).
Proof.
  intros master daily1 daily2 Hd1 Hd2 Hne Hm Ha Hb Hok.
  destruct (merge_day_succeeds env (VIDEOS_DIR cfg) day1 w m a Hd1 Hm Ha)
    as (w1 & Hex1 & Hfs1 & Hn1).
  { intros i Hi. apply Hok. lia. }
  pose proof (merge_names_distinct (VIDEOS_DIR cfg) day1 Hd1) as Hnd.
  apply NoDup_cons in Hnd as [H1 _]. repeat rewrite not_elem_of_cons in H1.
  destruct H1 as (Hmd & Hmtm & Hmtd & Hmt & _).
  assert (daily2 ≠ master) as Hb1.
  { intros Heq. apply path_join_inj, (f_equal String.length) in Heq.
    by rewrite daily_name_length in Heq. }
  assert (daily2 ≠ VIDEOS_DIR cfg // "master.ts") as Hb2.
  { intros Heq. apply path_join_inj, (f_equal String.length) in Heq.
    by rewrite daily_name_length in Heq. }
  assert (daily2 ≠ VIDEOS_DIR cfg // daily_ts_name day1) as Hb3.
  { intros Heq. apply path_join_inj, (f_equal String.length) in Heq.
    by rewrite daily_name_length, daily_ts_name_length in Heq. }
  assert (daily2 ≠ VIDEOS_DIR cfg // "master.new.mp4") as Hb4.
  { intros Heq. apply path_join_inj in Heq. by apply daily_name_not_temp in Heq. }
  destruct (merge_day_succeeds env (VIDEOS_DIR cfg) day2 w1
              (ff_concat env [ff_to_ts env m; ff_to_ts env a]) b Hd2)
    as (w2 & Hex2 & Hfs2 & _).
  { rewrite Hfs1. by map_lookup. }
  { rewrite Hfs1. subst master daily1 daily2. map_lookup. exact Hb. }
  { intros i Hi. rewrite Hn1, <- Nat.add_assoc. apply Hok. lia. }
  exists w1, w2. split; [exact Hex1|]. split; [exact Hex2|].
  rewrite Hfs2. subst master. by map_lookup.
Qed.

Lemma merges_in_sequence_witness :
  let master := ["data"; "videos"; "master.mp4"] in
  let daily1 := ["data"; "videos"; "2024-01-01.mp4"] in
  let daily2 := ["data"; "videos"; "2024-01-02.mp4"] in
  let w := Scenario.world
             {[ master := [Byte.x00]; daily1 := [Byte.x01]; daily2 := [Byte.x02] ]} in
  ∃ w1 w2,
    exec Scenario.all_well (merge_daily_into_master master daily1) w
    = (Returned master, w1)
    ∧ exec Scenario.all_well (merge_daily_into_master master daily2) w1
      = (Returned master, w2)
    ∧ fs w2 !! master = Some [Byte.x00; Byte.x01; Byte.x02].
Proof.
  intros master daily1 daily2 w.
  apply (merges_in_sequence Scenario.cfg Scenario.all_well Scenario.day1
           Scenario.day2 w [Byte.x00] [Byte.x01] [Byte.x02]).
  - vm_compute. repeat split; discriminate.
  - vm_compute. repeat split; discriminate.
  - discriminate.
  - reflexivity.
  - reflexivity.
  - reflexivity.
  - reflexivity.
Defined.

(** X1.  When a merge into an existing master raises, the master holds the
    bytes it held before: the concatenation writes only its [.ts] files and
    the temporary file [master.new.mp4], and [os.replace] is reached only
    after the concatenation has returned. *)
Theorem failed_merge_keeps_master (cfg : Config) (env : Env)
    (day_video_path : path) (w w' : World) (e : exn) :
  let master := VIDEOS_DIR cfg // "master.mp4" in
  is_Some (fs w !! master) →
  exec env (merge_daily_into_master master day_video_path) w = (Raised e, w') →
  fs w' !! master = fs w !! master.
Proof.
  intros master Hm Hex. rewrite merge_existing_exec in Hex by done.
  pose proof (leaves_alone_exec env master
                (concat_videos_fast [master; day_video_path]
                   (PurePath.with_suffix master ".new.mp4"))
                (emit (PathExists master) true w)) as Hkeep.
  destruct (exec env (concat_videos_fast _ _) _) as [[[]|e1] w1].
  - revert Hex. run_exec.
    destruct (fs w1 !! PurePath.with_suffix master ".new.mp4"); run_exec;
      intros [= <- <-]. simpl. apply Hkeep.
    apply leaves_alone_concat_videos_fast; [apply master_not_temp|].
    intros v _. apply master_not_ts.
  - injection Hex as <- <-. apply Hkeep.
    apply leaves_alone_concat_videos_fast; [apply master_not_temp|].
    intros v _. apply master_not_ts.
Qed.

Lemma failed_merge_keeps_master_witness :
  let master := ["data"; "videos"; "master.mp4"] in
  let daily := ["data"; "videos"; "2024-01-02.mp4"] in
  let w := Scenario.world {[ master := [Byte.x01]; daily := [Byte.x02] ]} in
  let env := Scenario.with_procs
               (λ n, if (n <? 2)%nat then ExitZero else ExitNonZero (Some []))
               Scenario.all_well in
  ∃ e w',
    exec env (merge_daily_into_master master daily) w = (Raised e, w')
    ∧ fs w' !! master = Some [Byte.x01].
Proof.
  intros master daily w env.
  eexists _, _. split; [vm_compute; reflexivity|].
  refine (failed_merge_keeps_master Scenario.cfg env daily w _ _ _ _).
  - eexists. vm_compute. reflexivity.
  - vm_compute. reflexivity.
Defined.

(** ** The loop over the days *)

Section DateFacts.

Lemma date_lt_irrefl (a : date) : ¬ date_lt a a.
Proof. unfold date_lt. lia. Qed.

Lemma date_lt_trans (a b c : date) : date_lt a b → date_lt b c → date_lt a c.
Proof. unfold date_lt. lia. Qed.

Lemma date_le_lt (a b : date) : date_le a b → a ≠ b → date_lt a b.
Proof. by intros [->|H] Hne. Qed.

Lemma date_le_trans (a b c : date) : date_le a b → date_le b c → date_le a c.
Proof.
  intros [->|Hab] [->|Hbc]; unfold date_le; eauto using date_lt_trans.
Qed.

End DateFacts.

Section TraceFacts.

Variable cfg : Config.

Lemma no_write_after_dispatch_app (frozen : list path) (evs1 evs2 : list event) :
  no_write_after_dispatch frozen (evs1 ++ evs2)
  ↔ no_write_after_dispatch frozen evs1
    ∧ no_write_after_dispatch (dispatched_after frozen evs1) evs2.
Proof.
  revert frozen. induction evs1 as [|ev evs1 IH]; intros frozen; simpl.
  - tauto.
  - rewrite IH. tauto.
Qed.

Lemma dispatched_after_app (frozen : list path) (evs1 evs2 : list event) :
  dispatched_after frozen (evs1 ++ evs2)
  = dispatched_after (dispatched_after frozen evs1) evs2.
Proof. apply foldl_app. Qed.

Lemma dispatched_days_app (evs1 evs2 : list event) :
  dispatched_days (evs1 ++ evs2) = dispatched_days evs1 ++ dispatched_days evs2.
Proof. apply omap_app. Qed.

Lemma StronglySorted_snoc {A} (R : A → A → Prop) (l : list A) (y : A) :
  StronglySorted R l → (∀ x, x ∈ l → R x y) → StronglySorted R (l ++ [y]).
Proof.
  induction 1 as [|x l Hl IH Hx]; intros Hy; simpl.
  - repeat constructor.
  - constructor.
    + apply IH. intros z Hz. apply Hy. by right.
    + apply Forall_app. split; [done|]. constructor; [|constructor].
      apply Hy. by left.
Qed.

(** A calm call keeps the history as it should be. *)
Lemma trace_inv_calm (cur : date) (tr : list event) (ev : event) :
  valid_date cur →
  trace_inv cfg cur tr →
  calm (IMAGES_DIR cfg // isoformat cur) ev →
  trace_inv cfg cur (tr ++ [ev]).
Proof.
  intros Hcur (Hdirs & Hnw & Hsort & Hdays) (Hdd & Hdy & Him).
  unfold trace_inv.
  rewrite dispatched_after_app, dispatched_days_app, no_write_after_dispatch_app.
  simpl. rewrite Hdd.
  change (dispatched_days [ev]) with (from_option (λ d, [d]) [] (dispatched_day ev)).
  rewrite Hdy. simpl. rewrite !app_nil_r.
  repeat split; try done.
  destruct Him as [->| ->]; [done|].
  intros Hin. destruct (Hdirs _ Hin) as (d & Hd & Hlt & Heq).
  apply path_join_inj, isoformat_inj in Heq; [|done..].
  subst d. by apply date_lt_irrefl in Hlt.
Qed.

Lemma trace_inv_calm_all (cur : date) (tr evs : list event) :
  valid_date cur →
  trace_inv cfg cur tr →
  Forall (calm (IMAGES_DIR cfg // isoformat cur)) evs →
  trace_inv cfg cur (tr ++ evs).
Proof.
  intros Hcur Htr Hevs. revert tr Htr.
  induction Hevs as [|ev evs Hev _ IH]; intros tr Htr.
  - by rewrite app_nil_r.
  - rewrite cons_middle, (assoc_L (++) tr [ev] evs). apply IH.
    by apply trace_inv_calm.
Qed.

(** Handing the current bucket over on a change to a later day. *)
Lemma trace_inv_rollover (cur now : date) (tr : list event) :
  valid_date cur → date_lt cur now →
  trace_inv cfg cur tr →
  trace_inv cfg now
    (tr ++ [Ev (ThreadStart (FinalizeJob cur (IMAGES_DIR cfg // isoformat cur))) tt]).
Proof.
  intros Hcur Hlt (Hdirs & Hnw & Hsort & Hdays). unfold trace_inv.
  rewrite dispatched_after_app, dispatched_days_app, no_write_after_dispatch_app.
  simpl.
  change (dispatched_days [Ev (ThreadStart (FinalizeJob cur _)) tt]) with [cur].
  repeat split; try done.
  - intros dir [->|Hin]%elem_of_cons; [by eauto|].
    destruct (Hdirs _ Hin) as (d & Hd & Hlt' & Heq).
    eauto using date_lt_trans.
  - by apply StronglySorted_snoc.
  - intros d [Hin|Hin]%elem_of_app.
    + eauto using date_lt_trans.
    + apply list_elem_of_singleton in Hin. by subst d.
Qed.

End TraceFacts.

Section LoopFacts.

Variable cfg : Config.
Variable env : Env.

(** Every date the clock gives is a date. *)
Hypothesis clock_valid : ∀ i, valid_date (today_at env i).

(** The clock never goes back to an earlier date. *)
Hypothesis clock_monotone : ∀ i j, (i ≤ j)%nat → date_le (today_at env i) (today_at env j).

(** [capture_frame] starts no job, writes into the current directory
    only, reads no date and leaves the bucket as it is. *)
Lemma capture_frame_calm (self : Daemon) (w : World) :
  ∃ evs,
    trace (exec env (capture_frame self) w).2 = trace w ++ evs
    ∧ Forall (calm (current_dir self)) evs
    ∧ n_today (exec env (capture_frame self) w).2 = n_today w
    ∧ ∀ self', (exec env (capture_frame self) w).1 = Returned self' →
        current_day self' = current_day self
        ∧ current_dir self' = current_dir self
        ∧ interval self' = interval self.
Proof.
  assert (∀ f r, calm (current_dir self)
            (Ev (Imwrite (current_dir self // frame_name (seq self)) f 85) r)) as Hw.
  { intros f r. repeat split. right. simpl. by rewrite removelast_path_join. }
  destruct (cam_read_at env (n_read w)) as [f|] eqn:Hr.
  - destruct (imwrite_at env (n_imwrite w)) as [|partial|] eqn:Hi.
    + rewrite (capture_frame_written env self w f Hr Hi). simpl.
      eexists. split; [rewrite <- !app_assoc; reflexivity|]. simpl.
      split; [|split; [done | by intros ? [= <-]]].
      repeat (apply Forall_cons; split;
              [first [apply Hw | by (repeat split; left)]|]); by apply Forall_nil.
    + rewrite (capture_frame_not_written env self w f partial Hr Hi). simpl.
      eexists. split; [rewrite <- !app_assoc; reflexivity|]. simpl.
      split; [|split; [done | by intros ? [= <-]]].
      repeat (apply Forall_cons; split;
              [first [apply Hw | by (repeat split; left)]|]); by apply Forall_nil.
    + rewrite (capture_frame_raises env self w f Hr Hi). simpl.
      eexists. split; [rewrite <- !app_assoc; reflexivity|]. simpl.
      split; [|split; [done | by intros ? [=]]].
      repeat (apply Forall_cons; split;
              [first [apply Hw | by (repeat split; left)]|]); by apply Forall_nil.
  - rewrite (capture_frame_no_frame env self w Hr). simpl.
    eexists. split; [rewrite <- !app_assoc; reflexivity|]. simpl.
    split; [|split; [done | by intros ? [= <-]]].
    repeat (apply Forall_cons; split; [by (repeat split; left)|]); by apply Forall_nil.
Qed.

(** The wait always returns; it starts no job and writes no frame. *)
Lemma wait_calm (self : Daemon) (n : nat) (dir : path) (w : World) :
  ∃ w' evs,
    exec env (wait n self) w = (Returned tt, w')
    ∧ trace w' = trace w ++ evs
    ∧ Forall (calm dir) evs
    ∧ (n_today w ≤ n_today w')%nat.
Proof.
  revert w. induction n as [|n IH]; intros w.
  - exists w, []. simpl. by rewrite app_nil_r.
  - simpl. unfold perform. simpl. case_bool_decide.
    + eexists _, [_; _]. split; [done|]. simpl. rewrite <- app_assoc. simpl.
      split; [done|]. split; [|lia].
      repeat (apply Forall_cons; split; [by (repeat split; left)|]); by apply Forall_nil.
    + edestruct IH as (w' & evs & Hex & Htr & Hcalm & Hn). rewrite Hex.
      exists w', ([Ev (TimeSleep 1) tt; Ev DateToday (today_at env (n_today w))]
                  ++ evs).
      split; [done|]. split; [rewrite Htr; simpl; by rewrite <- !app_assoc|].
      split; [|simpl in Hn; lia].
      apply Forall_app. split; [|done].
      repeat (apply Forall_cons; split; [by (repeat split; left)|]);
        by apply Forall_nil.
Qed.

(** One turn keeps the invariant, however it ends. *)
Lemma iteration_inv (self : Daemon) (w : World) :
  bucket_inv cfg env self w →
  ∃ self',
    bucket_inv cfg env self' (exec env (iteration cfg self) w).2
    ∧ ∀ s, (exec env (iteration cfg self) w).1 = Returned s → s = self'.
Proof.
  intros (Hdir & Hcur & Hfuture & Htr).
  assert (calm (IMAGES_DIR cfg // isoformat (current_day self))
            (Ev DateToday (today_at env (n_today w)))) as Hread
    by (repeat split; by left).
  destruct (decide (today_at env (n_today w) = current_day self)) as [Hsame|Hnew].
  - rewrite iteration_same_day by done.
    set (w0 := emit DateToday (today_at env (n_today w)) (next_today w)).
    destruct (capture_frame_calm self w0) as (evs1 & Htr1 & Hcalm1 & Hn1 & Hself1).
    destruct (exec env (capture_frame self) w0) as [[self1|e] w1]; simpl in *.
    + destruct (Hself1 self1 eq_refl) as (Hday1 & Hdir1 & _).
      destruct (wait_calm self1 (Z.to_nat (interval self1))
                  (IMAGES_DIR cfg // isoformat (current_day self)) w1)
        as (w2 & evs2 & Hex2 & Htr2 & Hcalm2 & Hn2).
      rewrite Hex2. exists self1. split; [|by intros ? [= <-]]. simpl.
      split; [|split; [|split]].
      * by rewrite Hdir1, Hday1.
      * by rewrite Hday1.
      * intros j Hj. rewrite Hday1. apply Hfuture. lia.
      * rewrite Hday1, Htr2, Htr1.
        apply trace_inv_calm_all; [done| |done].
        apply trace_inv_calm_all; [done| |by rewrite <- Hdir].
        by apply trace_inv_calm.
    + exists self. split; [|by intros ? [=]].
      split; [done|]. split; [done|]. split.
      * intros j Hj. apply Hfuture. lia.
      * rewrite Htr1. apply trace_inv_calm_all; [done| |by rewrite <- Hdir].
        by apply trace_inv_calm.
  - assert (date_lt (current_day self) (today_at env (n_today w))) as Hlt.
    { apply date_le_lt; [apply Hfuture; lia | done]. }
    rewrite iteration_rollover by done.
    set (now := today_at env (n_today w)) in *.
    assert (trace_inv cfg now (trace (rolled_over cfg env self w))) as Htr0.
    { unfold rolled_over. simpl. fold now.
      apply trace_inv_calm; [apply clock_valid| |by repeat split; left].
      rewrite Hdir. apply trace_inv_rollover; [done..|].
      by apply trace_inv_calm. }
    assert (current_dir (new_bucket cfg env self w) = IMAGES_DIR cfg // isoformat now)
      as Hdir0 by done.
    destruct (capture_frame_calm (new_bucket cfg env self w) (rolled_over cfg env self w))
      as (evs1 & Htr1 & Hcalm1 & Hn1 & Hself1).
    rewrite Hdir0 in Hcalm1.
    destruct (exec env (capture_frame _) _) as [[self1|e] w1]; simpl in *.
    + destruct (Hself1 self1 eq_refl) as (Hday1 & Hdir1 & _).
      destruct (wait_calm self1 (Z.to_nat (interval self1))
                  (IMAGES_DIR cfg // isoformat now) w1)
        as (w2 & evs2 & Hex2 & Htr2 & Hcalm2 & Hn2).
      rewrite Hex2. exists self1. split; [|by intros ? [= <-]]. simpl.
      split; [|split; [|split]].
      * by rewrite Hdir1, Hday1.
      * rewrite Hday1. apply clock_valid.
      * intros j Hj. rewrite Hday1. apply clock_monotone. lia.
      * rewrite Hday1, Htr2, Htr1. fold now.
        apply trace_inv_calm_all; [apply clock_valid| |done].
        apply trace_inv_calm_all; [apply clock_valid|done..].
    + exists (new_bucket cfg env self w). split; [|by intros ? [=]].
      split; [done|]. split; [|split].
      * apply clock_valid.
      * intros j Hj. apply clock_monotone. simpl. lia.
      * rewrite Htr1. apply trace_inv_calm_all; [apply clock_valid|done..].
Qed.

(** The loop keeps the invariant over any number of turns. *)
Lemma run_loop_inv (turns : nat) (self : Daemon) (w : World) :
  bucket_inv cfg env self w →
  ∃ self', bucket_inv cfg env self' (exec env (run_loop cfg turns self) w).2.
Proof.
  revert self w. induction turns as [|turns IH]; intros self w Hinv;
    cbn [run_loop].
  - simpl. eauto.
  - destruct (running self); [|simpl; eauto].
    rewrite exec_bind.
    destruct (iteration_inv self w Hinv) as (self1 & Hinv1 & Hret).
    destruct (exec env (iteration cfg self) w) as [[s|e] w1]; simpl in *.
    + rewrite (Hret s eq_refl). by apply IH.
    + eauto.
Qed.

(** The invariant holds when [__init__] has run on an empty history. *)
Lemma init_inv (w : World) :
  trace w = [] →
  ∃ self w1,
    exec env (init cfg) w = (Returned self, w1)
    ∧ seq self = 1
    ∧ bucket_inv cfg env (set_running true self) w1.
Proof.
  intros Hnil. eexists _, _. split; [apply init_exec|]. split; [done|].
  split; [done|]. split; [apply clock_valid|]. split.
  - intros j Hj. apply clock_monotone. simpl in Hj. lia.
  - simpl. rewrite Hnil. simpl. split; [|split; [|split]].
    + intros dir Hin. by apply elem_of_nil in Hin.
    + done.
    + constructor.
    + intros d Hin. by apply elem_of_nil in Hin.
Qed.

End LoopFacts.

(** The wait changes no file. *)
Lemma wait_fs (env : Env) (self : Daemon) (n : nat) (w : World) :
  fs (exec env (wait n self) w).2 = fs w.
Proof.
  revert w. induction n as [|n IH]; intros w; [done|].
  simpl. unfold perform. simpl. case_bool_decide; [done|]. by rewrite IH.
Qed.

(** X7.  A turn of the loop that finds the date changed (to any other
    date, later or not) and captures a frame: one finalization job is
    started, for the day and the directory being left, before anything
    else; the bucket becomes the new date's, whose directory differs from
    the one left; the frame is stored there as [000001.jpg] and the
    sequence number is 2 afterwards; the rest of the turn starts no other
    job and writes nothing. *)
Theorem rollover_turn (cfg : Config) (env : Env) (self : Daemon) (w : World)
    (f : frame) :
  let now := today_at env (n_today w) in
  let new_dir := IMAGES_DIR cfg // isoformat now in
  now ≠ current_day self →
  valid_date now →
  valid_date (current_day self) →
  current_dir self = IMAGES_DIR cfg // isoformat (current_day self) →
  cam_read_at env (n_read w) = Some f →
  imwrite_at env (n_imwrite w) = Written →
  ∃ self' w' rest,
    exec env (iteration cfg self) w = (Returned self', w')
    ∧ current_day self' = now
    ∧ current_dir self' = new_dir
    ∧ new_dir ≠ current_dir self
    ∧ seq self' = 2
    ∧ fs w' = <[new_dir // "000001.jpg" := jpeg_encode env 85 f]> (fs w)
    ∧ trace w'
      = trace w
        ++ [Ev DateToday now;
            Ev (ThreadStart (FinalizeJob (current_day self) (current_dir self))) tt;
            Ev (Mkdir new_dir) tt;
            Ev CapRead (Some f);
            Ev (Imwrite (new_dir // "000001.jpg") f 85) (inr true);
            Ev (Log INFO (MsgCaptured (new_dir // "000001.jpg"))) tt]
        ++ rest
    ∧ Forall (calm new_dir) rest.
Proof.
  intros now new_dir Hne Hnow Hcur Hdir Hr Hi.
  rewrite iteration_rollover by done.
  rewrite (capture_frame_written env (new_bucket cfg env self w)
             (rolled_over cfg env self w) f Hr Hi).
  match goal with |- context [exec env (wait ?n ?s) ?w1] =>
    destruct (wait_calm env s n new_dir w1) as (w2 & rest & Hex & Htr & Hcalm & _);
    pose proof (wait_fs env s n w1) as Hfs
  end.
  rewrite Hex in Hfs |- *. simpl in Hfs.
  eexists _, w2, rest. split; [reflexivity|].
  split; [done|]. split; [done|]. split.
  { rewrite Hdir. intros Heq. apply path_join_inj, isoformat_inj in Heq; done. }
  split; [done|]. split; [exact Hfs|]. split; [|exact Hcalm].
  rewrite Htr. simpl. by rewrite <- !app_assoc.
Qed.

Lemma rollover_turn_witness :
  let env := Scenario.with_clock (λ _, Scenario.day2) Scenario.all_well in
  ∃ self' w',
    exec env (iteration Scenario.cfg Scenario.fresh_daemon) (Scenario.world ∅)
    = (Returned self', w')
    ∧ current_dir self' = ["data"; "images"; "2024-01-02"]
    ∧ seq self' = 2
    ∧ fs w' = {[ ["data"; "images"; "2024-01-02"; "000001.jpg"] := Scenario.picture ]}.
Proof.
  intros env.
  destruct (rollover_turn Scenario.cfg env Scenario.fresh_daemon (Scenario.world ∅)
              Scenario.picture)
    as (self' & w' & rest & Hex & _ & Hdir & _ & Hseq & Hfs & _).
  - discriminate.
  - vm_compute. repeat split; discriminate.
  - vm_compute. repeat split; discriminate.
  - reflexivity.
  - reflexivity.
  - reflexivity.
  - exists self', w'. split; [exact Hex|]. split; [exact Hdir|].
    split; [exact Hseq | exact Hfs].
Defined.

(** X8.  As long as [cv2.imwrite] does not raise, any number of capture
    cycles returns, and the sequence number has advanced by one for each
    frame the camera gave (whether or not its file was written) and not at
    all for the reads that gave none; the bucket is unchanged. *)
Theorem captures_count_frames (env : Env) (n : nat) (self : Daemon) (w : World) :
  (∀ i, imwrite_at env i ≠ WriteRaises) →
  ∃ self' w',
    exec env (captures n self) w = (Returned self', w')
    ∧ seq self' = seq self + Z.of_nat (frames_got env (n_read w) n)
    ∧ n_read w' = (n_read w + n)%nat
    ∧ n_imwrite w' = (n_imwrite w + frames_got env (n_read w) n)%nat
    ∧ current_dir self' = current_dir self
    ∧ current_day self' = current_day self.
Proof.
  intros Hnoraise. revert self w. induction n as [|n IH]; intros self w.
  - exists self, w. simpl. repeat split; lia.
  - cbn [captures frames_got]. rewrite exec_bind.
    destruct (cam_read_at env (n_read w)) as [f|] eqn:Hr.
    + destruct (imwrite_at env (n_imwrite w)) as [|partial|] eqn:Hi;
        [| |by destruct (Hnoraise (n_imwrite w))].
      * rewrite (capture_frame_written env self w f Hr Hi).
        match goal with |- context [exec env (captures n ?s) ?w1] =>
          destruct (IH s w1) as (self' & w' & Hex & Hseq & Hnr & Hni & Hdir & Hday) end.
        exists self', w'. rewrite Hex. simpl in *.
        repeat split; try done; lia.
      * rewrite (capture_frame_not_written env self w f partial Hr Hi).
        match goal with |- context [exec env (captures n ?s) ?w1] =>
          destruct (IH s w1) as (self' & w' & Hex & Hseq & Hnr & Hni & Hdir & Hday) end.
        exists self', w'. rewrite Hex. simpl in *.
        repeat split; try done; lia.
    + rewrite (capture_frame_no_frame env self w Hr).
      match goal with |- context [exec env (captures n ?s) ?w1] =>
        destruct (IH s w1) as (self' & w' & Hex & Hseq & Hnr & Hni & Hdir & Hday) end.
      exists self', w'. rewrite Hex. simpl in *.
      repeat split; try done; lia.
Qed.

Lemma captures_count_frames_witness :
  let env := Scenario.with_camera
               (λ n, if (n =? 1)%nat then None else Some Scenario.picture)
               Scenario.all_well in
  ∃ self' w',
    exec env (captures 3 Scenario.fresh_daemon) (Scenario.world ∅) = (Returned self', w')
    ∧ seq self' = 3.
Proof.
  intros env.
  destruct (captures_count_frames env 3 Scenario.fresh_daemon (Scenario.world ∅))
    as (self' & w' & Hex & Hseq & _); [discriminate|].
  exists self', w'. split; [exact Hex | exact Hseq].
Defined.

(** X9.  When the health-check read of [open_cam] gives no frame, [run]
    raises [RuntimeError] at once: after opening and configuring the device
    and sleeping one second it makes no turn of the loop, reads no date,
    and does not release the capture handle it has just set. *)
Theorem startup_failure_skips_release (cfg : Config) (env : Env) (self : Daemon)
    (w : World) (turns : nat) :
  cam_read_at env (n_read w) = None →
  ∃ w',
    exec env (run cfg turns self) w
    = (Raised (RuntimeError "Camera not accessible."), w')
    ∧ trace w'
      = trace w
        ++ [Ev (Log INFO (MsgOpeningCamera (CAM_INDEX cfg))) tt;
            Ev (VideoCapture (CAM_INDEX cfg)) tt;
            Ev (CapSet CAP_PROP_FRAME_WIDTH (width self)) tt;
            Ev (CapSet CAP_PROP_FRAME_HEIGHT (height self)) tt;
            Ev (TimeSleep 1) tt;
            Ev CapRead None]
    ∧ fs w' = fs w.
Proof.
  intros Hr. unfold run. rewrite exec_bind. run_exec. rewrite Hr. run_exec.
  eexists. split; [reflexivity|]. simpl. by rewrite <- !app_assoc.
Qed.

Lemma startup_failure_skips_release_witness :
  let env := Scenario.with_camera (λ _, None) Scenario.all_well in
  ∃ w',
    exec env (run Scenario.cfg 4 Scenario.fresh_daemon) (Scenario.world ∅)
    = (Raised (RuntimeError "Camera not accessible."), w')
    ∧ length (trace w') = 6%nat.
Proof.
  intros env.
  destruct (startup_failure_skips_release Scenario.cfg env Scenario.fresh_daemon
              (Scenario.world ∅) 4) as (w' & Hex & Htr & _); [reflexivity|].
  exists w'. split; [exact Hex|]. by rewrite Htr.
Defined.

(** [open_cam] returns the daemon with its handle set, or raises. *)
Lemma open_cam_returns (cfg : Config) (env : Env) (self self1 : Daemon) (w w0 : World) :
  exec env (open_cam cfg self) w = (Returned self1, w0) → self1 = set_cap true self.
Proof.
  run_exec. destruct (cam_read_at env (n_read w)); run_exec; by intros [= <- _].
Qed.

(** X10.  Once the camera is open, an exception that leaves the loop
    (other than [KeyboardInterrupt]) leaves [run] too, after the capture
    handle has been released: the release is the last call of [run]. *)
Theorem loop_exception_releases_camera (cfg : Config) (env : Env)
    (self self1 : Daemon) (w w0 w1 : World) (turns : nat) (e : exn) :
  exec env (open_cam cfg (set_running true self)) w = (Returned self1, w0) →
  exec env (run_loop cfg turns self1) (emit (Log INFO MsgDaemonStarted) tt w0)
  = (Raised e, w1) →
  is_Exception e = true →
  exec env (run cfg turns self) w = (Raised e, emit CapRelease tt w1).
Proof.
  intros Hopen Hloop He. unfold run.
  rewrite exec_bind, Hopen, exec_bind, exec_call. simpl answer. cbn [fst snd].
  rewrite exec_try_finally, exec_try_except, exec_bind, Hloop, He. cbn [negb].
  rewrite (open_cam_returns cfg env _ _ _ _ Hopen). simpl cap. cbv iota.
  by rewrite exec_call.
Qed.

Lemma loop_exception_releases_camera_witness :
  let env := Scenario.with_imwrite (λ _, WriteRaises) Scenario.all_well in
  ∃ w',
    exec env (run Scenario.cfg 2 Scenario.fresh_daemon) (Scenario.world ∅)
    = (Raised Cv2Error, w')
    ∧ last (trace w') = Some (Ev CapRelease tt).
Proof.
  intros env.
  eexists. split.
  - eapply (loop_exception_releases_camera Scenario.cfg env Scenario.fresh_daemon);
      [vm_compute; reflexivity | vm_compute; reflexivity | reflexivity].
  - vm_compute. reflexivity.
Defined.

(** ** More on the finalization job *)

Section JobFiles.

Variable cfg : Config.
Variable env : Env.

Lemma leaves_alone_call {X} (q : path) (o : op X) :
  q ∉ op_targets o → leaves_alone q (call o).
Proof. intros Hq. constructor; [done|]. intros x. constructor. Qed.

Lemma leaves_alone_call_raising {X} (q : path) (o : op (exn + X)) :
  q ∉ op_targets o → leaves_alone q (call_raising o).
Proof. intros Hq. constructor; [done|]. intros [e|x]; constructor. Qed.

Lemma leaves_alone_subprocess_run (q : path) (c : command) :
  q ≠ command_output c → leaves_alone q (subprocess_run c).
Proof. intros Hq. constructor; [not_in_list|]. intros []; constructor. Qed.

Lemma leaves_alone_try_except {A} (q : path) catches (p : Prog A) h :
  leaves_alone q p → (∀ e, leaves_alone q (h e)) →
  leaves_alone q (try_except catches p h).
Proof.
  intros Hp Hh. induction Hp as [a|e|X o k Hq _ IH]; simpl.
  - constructor.
  - destruct (catches e); [done | constructor].
  - constructor; auto.
Qed.

Lemma leaves_alone_send_file_telegram (q file_path : path) (caption : string) :
  leaves_alone q (send_file_telegram cfg file_path caption).
Proof.
  unfold send_file_telegram. destruct (not_configured cfg).
  { apply leaves_alone_call, not_elem_of_nil. }
  apply leaves_alone_bind; [apply leaves_alone_call_raising, not_elem_of_nil|].
  intros st_size. destruct (too_large cfg st_size).
  { apply leaves_alone_call, not_elem_of_nil. }
  apply leaves_alone_bind; [apply leaves_alone_call_raising, not_elem_of_nil|].
  intros _.
  apply leaves_alone_bind; [apply leaves_alone_call, not_elem_of_nil|].
  intros _. apply leaves_alone_call, not_elem_of_nil.
Qed.

(** The merge writes next to the master only. *)
Lemma leaves_alone_merge (q dir : path) (name1 name2 : string) :
  (∀ name, q ≠ dir // name) →
  leaves_alone q (merge_daily_into_master (dir // name1) (dir // name2)).
Proof.
  intros Hq. unfold merge_daily_into_master.
  apply leaves_alone_bind; [apply leaves_alone_call, not_elem_of_nil|].
  intros []; cbn [negb].
  - apply leaves_alone_bind.
    + apply leaves_alone_concat_videos_fast.
      * rewrite with_suffix_join. apply Hq.
      * intros v Hv. apply elem_of_cons in Hv as [->|Hv];
          [|apply list_elem_of_singleton in Hv as ->];
          rewrite with_suffix_join; apply Hq.
    + intros _. apply leaves_alone_bind; [|intros; constructor].
      apply leaves_alone_call_raising. rewrite with_suffix_join.
      pose proof (Hq (PurePath.with_suffix_name name1 ".new.mp4")).
      pose proof (Hq name1). not_in_list.
  - apply leaves_alone_bind; [|intros; constructor].
    apply leaves_alone_subprocess_run. apply Hq.
Qed.

Lemma leaves_alone_job (q : path) (day : date) (dirpath : path) :
  (∀ name, q ≠ VIDEOS_DIR cfg // name) →
  leaves_alone q (job cfg day dirpath).
Proof.
  intros Hq. unfold job.
  apply leaves_alone_try_except;
    [|intros e; apply leaves_alone_call, not_elem_of_nil].
  apply leaves_alone_bind.
  { unfold make_video_from_images.
    apply leaves_alone_bind; [apply leaves_alone_call, not_elem_of_nil|].
    intros _. apply leaves_alone_subprocess_run. apply Hq. }
  intros _. apply leaves_alone_bind; [apply leaves_alone_send_file_telegram|].
  intros _. apply leaves_alone_bind; [by apply leaves_alone_merge|].
  intros _. apply leaves_alone_send_file_telegram.
Qed.

End JobFiles.

(** X11.  A finalization job always returns: whatever its encoder runs,
    its deliveries or its merge do, no exception leaves the thread's
    function; and it creates, changes or removes files in the videos
    directory only, so that every frame of every day is left as it was. *)
Theorem job_returns_and_keeps_frames (cfg : Config) (env : Env) (day : date)
    (dirpath : path) (w : World) :
  ∃ w',
    exec env (job cfg day dirpath) w = (Returned tt, w')
    ∧ ∀ q, (∀ name, q ≠ VIDEOS_DIR cfg // name) → fs w' !! q = fs w !! q.
Proof.
  destruct (job_returns env cfg day dirpath w) as [w' Hex].
  exists w'. split; [exact Hex|].
  intros q Hq.
  pose proof (leaves_alone_exec env q _ w (leaves_alone_job cfg q day dirpath Hq)) as H.
  by rewrite Hex in H.
Qed.

(** X12.  When the encoder fails to build the day's video, the job ends
    there: the error is logged, the transport is not called, no merge is
    attempted. *)
Theorem failed_encoding_ends_job (cfg : Config) (env : Env) (day : date)
    (dirpath : path) (w : World) :
  let out_mp4 := VIDEOS_DIR cfg // (isoformat day +:+ ".mp4") in
  let encode :=
    FfmpegImages (DAILY_FPS cfg) dirpath (VIDEO_CODEC cfg) (VIDEO_PRESET cfg)
      (CRF cfg) out_mp4 in
  (run_command env encode (proc_at env (n_proc w)) (fs w)).1 = false →
  ∃ w',
    exec env (job cfg day dirpath) w = (Returned tt, w')
    ∧ trace w'
      = trace w
        ++ [Ev (Log INFO (MsgMakingVideo dirpath out_mp4)) tt;
            Ev (SubprocessRun encode) false;
            Ev (Log ERROR (MsgErrorFinalizing (CalledProcessError encode))) tt]
    ∧ n_send w' = n_send w.
Proof.
  intros out_mp4 encode Hfail. unfold job. rewrite exec_try_except.
  rewrite exec_bind. unfold make_video_from_images. fold out_mp4 encode.
  rewrite exec_bind, exec_call. simpl answer. cbn [fst snd].
  unfold subprocess_run. cbn [exec]. unfold perform. cbn [answer].
  destruct (run_command env encode _ _) as [ok files] eqn:Hrun.
  simpl in Hfail. subst ok. simpl.
  eexists. split; [reflexivity|]. simpl. by rewrite <- !app_assoc.
Qed.

Lemma failed_encoding_ends_job_witness :
  ∃ w',
    exec Scenario.all_well
      (job Scenario.cfg_telegram Scenario.day1 ["data"; "images"; "2024-01-01"])
      (Scenario.world ∅)
    = (Returned tt, w')
    ∧ length (trace w') = 3%nat
    ∧ n_send w' = 0%nat.
Proof.
  destruct (failed_encoding_ends_job Scenario.cfg_telegram Scenario.all_well
              Scenario.day1 ["data"; "images"; "2024-01-01"] (Scenario.world ∅))
    as (w' & Hex & Htr & Hsend); [reflexivity|].
  exists w'. split; [exact Hex|]. split; [by rewrite Htr | exact Hsend].
Defined.

(** X13.  A delivery changes no file and calls [send_video] at most
    once; it calls it exactly when the notifier is configured and the file
    exists with a size that, rounded as the float division rounds it, is at
    most the ceiling in bytes; for the sizes below [2^53] bytes, exactly
    when the size is at most the ceiling (a file of exactly the ceiling is
    passed on).  A delivery that calls [send_video] returns; on a
    configured notifier a missing file raises [FileNotFoundError] before
    any call of [send_video]. *)
Theorem transport_called_exactly_when (cfg : Config) (env : Env)
    (file_path : path) (caption : string) (w : World) :
  let r := exec env (send_file_telegram cfg file_path caption) w in
  fs r.2 = fs w
  ∧ (n_send r.2 = S (n_send w)
     ↔ not_configured cfg = false
       ∧ ∃ b, fs w !! file_path = Some b
              ∧ round_to_double (Z.of_nat (length b))
                ≤ MAX_TELEGRAM_MB cfg * 1024 * 1024)
  ∧ ((∀ b, fs w !! file_path = Some b → Z.of_nat (length b) < 2 ^ 53) →
     (n_send r.2 = S (n_send w)
      ↔ not_configured cfg = false
        ∧ ∃ b, fs w !! file_path = Some b
               ∧ Z.of_nat (length b) ≤ MAX_TELEGRAM_MB cfg * 1024 * 1024))
  ∧ (n_send r.2 = n_send w ∨ n_send r.2 = S (n_send w))
  ∧ (n_send r.2 = S (n_send w) → r.1 = Returned tt)
  ∧ (not_configured cfg = false → fs w !! file_path = None →
     r.1 = Raised (FileNotFoundError file_path) ∧ n_send r.2 = n_send w).
Proof.
  intros r.
  assert (n_send r.2 = S (n_send w)
          ↔ not_configured cfg = false
            ∧ ∃ b, fs w !! file_path = Some b
                   ∧ round_to_double (Z.of_nat (length b))
                     ≤ MAX_TELEGRAM_MB cfg * 1024 * 1024) as Hiff.
  { subst r. unfold send_file_telegram.
    destruct (not_configured cfg) eqn:Hcfg.
    { rewrite exec_call. simpl. split; [lia | by intros [? _]]. }
    run_exec. destruct (fs w !! file_path) as [b|] eqn:Hb; run_exec.
    - rewrite too_large_bytes. case_bool_decide as Hsize; run_exec.
      + split; [lia|]. intros (_ & b' & [= <-] & Hle). lia.
      + rewrite Hb. run_exec. split; [|done].
        intros _. split; [done|]. exists b. split; [done | lia].
    - split; [lia|]. by intros (_ & b' & ? & _). }
  split; [apply send_file_telegram_fs|]. split; [exact Hiff|]. split.
  { intros Hsmall. rewrite Hiff. split.
    - intros (Hcfg & b & Hb & Hle). split; [done|]. exists b. split; [done|].
      by rewrite round_to_double_small in Hle by eauto.
    - intros (Hcfg & b & Hb & Hle). split; [done|]. exists b. split; [done|].
      by rewrite round_to_double_small by eauto. }
  subst r. unfold send_file_telegram.
  destruct (not_configured cfg) eqn:Hcfg.
  { rewrite exec_call. simpl. split; [by left|]. split; [lia | done]. }
  run_exec. destruct (fs w !! file_path) as [b|] eqn:Hb; run_exec.
  - destruct (too_large cfg _); run_exec.
    + split; [by left|]. split; [lia | done].
    + rewrite Hb. run_exec. split; [by right|]. split; done.
  - split; [by left|]. split; [lia | done].
Qed.

Lemma transport_called_exactly_when_witness :
  let master := ["data"; "videos"; "master.mp4"] in
  let w := Scenario.world {[ master := [Byte.x01] ]} in
  let r := exec Scenario.all_well
             (send_file_telegram Scenario.cfg_telegram master "Updated") w in
  n_send r.2 = 1%nat.
Proof.
  intros master w r.
  destruct (transport_called_exactly_when Scenario.cfg_telegram Scenario.all_well
              master "Updated" w) as (_ & _ & Hsmall & _).
  apply Hsmall.
  - intros b Hb. vm_compute in Hb. by injection Hb as <-.
  - split; [reflexivity|]. exists [Byte.x01]. split; [reflexivity | done].
Defined.

Section ConcatFacts.

Variable env : Env.

Lemma remove_all_exec (ts_files : list path) (w : World) :
  ∃ w',
    exec env (remove_all ts_files) w = (Returned tt, w')
    ∧ fs w' = foldl (λ m p, delete p m) (fs w) ts_files.
Proof.
  revert w. induction ts_files as [|p rest IH]; intros w; simpl; [eauto|].
  unfold perform. simpl.
  destruct (fs w !! p) eqn:Hp; simpl.
  - edestruct IH as (w' & Hex & Hfs). rewrite Hex. exists w'. by rewrite Hfs.
  - edestruct IH as (w' & Hex & Hfs). rewrite Hex. exists w'.
    rewrite Hfs. simpl. by rewrite delete_id.
Qed.

Lemma foldl_delete_lookup (l : list path) (m : gmap path bytes) (q : path) :
  foldl (λ m p, delete p m) m l !! q = if decide (q ∈ l) then None else m !! q.
Proof.
  revert m. induction l as [|p l IH]; intros m; simpl; [done|].
  rewrite IH. destruct (decide (q ∈ l)) as [Hin|Hout].
  - rewrite decide_True; [done | by right].
  - destruct (decide (q = p)) as [->|Hne].
    + rewrite decide_True by (by left). apply lookup_delete_eq.
    + rewrite decide_False by (by intros [?|?]%elem_of_cons).
      by apply lookup_delete_ne.
Qed.

(** The conversions that all succeed record one [.ts] file each. *)
Lemma remux_all_converted (video_paths acc ts_files : list path) (w w' : World) :
  exec env (remux_all video_paths acc) w = (Returned (ts_files, None), w') →
  ts_files = acc ++ ((λ v, PurePath.with_suffix v ".ts") <$> video_paths).
Proof.
  revert acc w. induction video_paths as [|v rest IH]; intros acc w;
    cbn [remux_all exec].
  - intros [= <- _]. by rewrite app_nil_r.
  - unfold perform. cbn [answer].
    match goal with |- context [run_command ?e ?c ?o ?f] =>
      destruct (run_command e c o f) as [[] files] end; simpl.
    + intros Hex. apply IH in Hex. by rewrite Hex, <- app_assoc.
    + intros [=].
Qed.

Lemma remux_all_never_raises (video_paths acc : list path) (w : World) :
  ∃ left w', exec env (remux_all video_paths acc) w = (Returned left, w').
Proof.
  revert acc w. induction video_paths as [|v rest IH]; intros acc w;
    cbn [remux_all exec]; [eauto|].
  unfold perform. cbn [answer].
  match goal with |- context [run_command ?e ?c ?o ?f] =>
    destruct (run_command e c o f) as [[] files] end; simpl; eauto.
Qed.

End ConcatFacts.

(** X14.  When [concat_videos_fast] returns, or raises because its final
    concatenation run failed, none of the [.ts] files it made for its
    inputs is left on disk. *)
Theorem concat_leaves_no_ts_file (env : Env) (video_paths : list path)
    (outpath : path) (w w' : World) (r : outcome unit) :
  exec env (concat_videos_fast video_paths outpath) w = (r, w') →
  r = Returned tt
  ∨ (∃ ts_files, r = Raised (CalledProcessError (FfmpegConcat ts_files outpath))) →
  ∀ v, v ∈ video_paths → fs w' !! PurePath.with_suffix v ".ts" = None.
Proof.
  intros Hex Hr v Hv. unfold concat_videos_fast in Hex.
  rewrite exec_bind, exec_call in Hex. simpl answer in Hex. cbn [fst snd] in Hex.
  rewrite exec_bind in Hex.
  destruct (exec env (remux_all video_paths []) _) as [[[ts_files [e|]]|e] w1] eqn:Hre.
  - (* a conversion failed: the exception is that of the conversion *)
    rewrite exec_bind in Hex.
    destruct (remove_all_exec env ts_files w1) as (w2 & Hrm & _).
    rewrite Hrm in Hex. simpl in Hex. injection Hex as <- <-.
    exfalso. clear -Hre Hr.
    assert (∀ vs acc w0 ts e w1,
              exec env (remux_all vs acc) w0 = (Returned (ts, Some e), w1) →
              ∃ a b, e = CalledProcessError (FfmpegToTs a b)) as Hconv.
    { induction vs as [|v0 rest IH]; intros acc w0 ts e0 w2;
        cbn [remux_all exec]; [by intros [=]|].
      unfold perform. cbn [answer].
      match goal with |- context [run_command ?e ?c ?o ?f] =>
        destruct (run_command e c o f) as [[] files] end; simpl.
      - apply IH.
      - intros [= _ <- _]. eauto. }
    destruct (Hconv _ _ _ _ _ _ Hre) as (a & b & ->).
    destruct Hr as [?|[ts ?]]; simplify_eq.
  - apply remux_all_converted in Hre. simpl in Hre. subst ts_files.
    cbn [exec] in Hex. unfold perform in Hex. cbn [answer] in Hex.
    match type of Hex with context [run_command ?e ?c ?o ?f] =>
      destruct (run_command e c o f) as [ok files] end.
    rewrite exec_bind in Hex.
    match type of Hex with context [exec env (remove_all ?l) ?w2] =>
      destruct (remove_all_exec env l w2) as (w3 & Hrm & Hfs) end.
    rewrite Hrm in Hex.
    assert (w' = w3) as -> by (destruct ok; simpl in Hex; congruence).
    rewrite Hfs, foldl_delete_lookup, decide_True; [done|].
    apply list_elem_of_fmap. eauto.
  - destruct (remux_all_never_raises env video_paths [] 
                (emit (Log INFO (MsgConcat (length video_paths) outpath)) tt w))
      as (left & w2 & Hnr).
    simpl in Hre. rewrite Hnr in Hre. discriminate.
Qed.

Lemma concat_leaves_no_ts_file_witness :
  let master := ["data"; "videos"; "master.mp4"] in
  let daily := ["data"; "videos"; "2024-01-02.mp4"] in
  let w := Scenario.world {[ master := [Byte.x01]; daily := [Byte.x02] ]} in
  let w' := (exec Scenario.all_well
               (concat_videos_fast [master; daily] ["data"; "videos"; "out.mp4"]) w).2 in
  fs w' !! ["data"; "videos"; "master.ts"] = None
  ∧ fs w' !! ["data"; "videos"; "2024-01-02.ts"] = None.
Proof.
  intros master daily w w'.
  pose proof (concat_leaves_no_ts_file Scenario.all_well [master; daily]
                ["data"; "videos"; "out.mp4"] w w' (Returned tt)) as H.
  split.
  - apply (H ltac:(vm_compute; reflexivity) ltac:(by left) master). by left.
  - apply (H ltac:(vm_compute; reflexivity) ltac:(by left) daily). right. by left.
Defined.

(** X15.  Two different non-negative sequence numbers never give the same
    frame file, whatever their size: within a directory no capture can
    replace the frame of another number. *)
Theorem frame_files_never_collide (dir : path) (a b : Z) :
  0 ≤ a → 0 ≤ b → a ≠ b → dir // frame_name a ≠ dir // frame_name b.
Proof.
  intros Ha Hb Hne Heq. apply Hne.
  by apply path_join_inj, frame_name_inj in Heq.
Qed.

Lemma frame_files_never_collide_witness :
  ["images"] // frame_name 999999 ≠ ["images"] // frame_name 1000000.
Proof. apply frame_files_never_collide; lia. Defined.

(** X16.  Two different dates never share an image directory or a daily
    video file: the ISO form of a date is ten characters that determine
    the date. *)
Theorem distinct_days_distinct_files (cfg : Config) (a b : date) :
  valid_date a → valid_date b → a ≠ b →
  IMAGES_DIR cfg // isoformat a ≠ IMAGES_DIR cfg // isoformat b
  ∧ VIDEOS_DIR cfg // (isoformat a +:+ ".mp4") ≠ VIDEOS_DIR cfg // (isoformat b +:+ ".mp4")
  ∧ String.length (isoformat a) = 10%nat.
Proof.
  intros Ha Hb Hne. split; [|split].
  - intros Heq. apply Hne. by apply path_join_inj, isoformat_inj in Heq.
  - intros Heq. apply Hne. by apply path_join_inj, daily_name_inj in Heq.
  - by apply isoformat_length.
Qed.

Lemma distinct_days_distinct_files_witness :
  IMAGES_DIR Scenario.cfg // isoformat Scenario.day1
  ≠ IMAGES_DIR Scenario.cfg // isoformat Scenario.day2.
Proof.
  apply (distinct_days_distinct_files Scenario.cfg Scenario.day1 Scenario.day2).
  - vm_compute. repeat split; discriminate.
  - vm_compute. repeat split; discriminate.
  - discriminate.
Defined.

(** X17.  When the date does not change while it waits, the wait between
    two captures sleeps the whole interval, one second at a time, and
    changes no file; with an interval of zero or less it does not sleep at
    all. *)
Theorem wait_lasts_the_interval (env : Env) (self : Daemon) (w : World) :
  (∀ i, (i < Z.to_nat (interval self))%nat →
        today_at env (n_today w + i) = current_day self) →
  ∃ w' evs,
    exec env (wait (Z.to_nat (interval self)) self) w = (Returned tt, w')
    ∧ trace w' = trace w ++ evs
    ∧ slept evs = Z.max 0 (interval self)
    ∧ fs w' = fs w.
Proof.
  intros Hsame.
  destruct (wait_full env self _ w Hsame) as (w' & evs & Hex & Htr & Hsl & _ & Hfs).
  exists w', evs. repeat split; try done. lia.
Qed.

Lemma wait_lasts_the_interval_witness :
  ∃ w' evs,
    exec Scenario.all_well (wait (Z.to_nat 2) Scenario.fresh_daemon) (Scenario.world ∅)
    = (Returned tt, w')
    ∧ trace w' = evs
    ∧ slept evs = 2.
Proof.
  destruct (wait_lasts_the_interval Scenario.all_well Scenario.fresh_daemon
              (Scenario.world ∅)) as (w' & evs & Hex & Htr & Hsl & _).
  - intros i _. reflexivity.
  - exists w', evs. split; [exact Hex|]. split; [exact Htr | exact Hsl].
Defined.

Section EncodeFacts.

Variable env : Env.

Lemma capture_frame_n_proc (self : Daemon) (w : World) :
  n_proc (exec env (capture_frame self) w).2 = n_proc w.
Proof.
  run_exec. destruct (cam_read_at env (n_read w)); run_exec; [|done].
  destruct (imwrite_at env (n_imwrite w)); by run_exec.
Qed.

Lemma captures_n_proc (n : nat) (self : Daemon) (w : World) :
  n_proc (exec env (captures n self) w).2 = n_proc w.
Proof.
  revert self w. induction n as [|n IH]; intros self w; [done|].
  cbn [captures]. rewrite exec_bind.
  pose proof (capture_frame_n_proc self w) as H.
  destruct (exec env (capture_frame self) w) as [[s|e] w1]; simpl in *; [|done].
  by rewrite IH.
Qed.

(** The image reader gives a run of numbered files that ends at a missing
    number, when it may look at as many files as the run has. *)
Lemma image_sequence_run (files : gmap path bytes) (dir : path) (bs : list bytes)
    (fuel : nat) (k : Z) :
  (∀ i b, bs !! i = Some b → files !! (dir // frame_name (k + Z.of_nat i)) = Some b) →
  files !! (dir // frame_name (k + Z.of_nat (length bs))) = None →
  (length bs ≤ fuel)%nat →
  image_sequence files dir fuel k = bs.
Proof.
  revert fuel k. induction bs as [|b bs IH]; intros fuel k Hat Hend Hfuel.
  - destruct fuel as [|fuel]; [done|]. simpl in *.
    rewrite Z.add_0_r in Hend. by rewrite Hend.
  - destruct fuel as [|fuel]; [simpl in Hfuel; lia|]. cbn [image_sequence].
    pose proof (Hat O b eq_refl) as H0. rewrite Z.add_0_r in H0. rewrite H0.
    f_equal. apply IH.
    + intros i c Hc. specialize (Hat (S i) c Hc).
      by replace (k + 1 + Z.of_nat i) with (k + Z.of_nat (S i)) by lia.
    + by replace (k + 1 + Z.of_nat (length bs))
        with (k + Z.of_nat (length (b :: bs))) by (simpl; lia).
    + simpl in Hfuel. lia.
Qed.

(** A directory holds at least as many files as it has numbered frames. *)
Lemma frames_fit (files : gmap path bytes) (dir : path) (bs : list bytes) (k : Z) :
  0 ≤ k →
  (∀ i b, bs !! i = Some b → files !! (dir // frame_name (k + Z.of_nat i)) = Some b) →
  (length bs ≤ size files)%nat.
Proof.
  intros Hk Hat.
  set (keys := (λ i : nat, dir // frame_name (k + Z.of_nat i)) <$> List.seq 0 (length bs)).
  assert (NoDup keys) as Hnd.
  { apply NoDup_fmap_2_strong; [|apply NoDup_seq].
    intros a b _ _ Heq. apply path_join_inj, frame_name_inj in Heq; lia. }
  assert (list_to_set (C := gset path) keys ⊆ dom files) as Hsub.
  { intros p Hp. apply elem_of_list_to_set, list_elem_of_fmap in Hp as (i & -> & Hi).
    apply elem_of_seq in Hi.
    destruct (lookup_lt_is_Some_2 bs i) as [b Hb]; [lia|].
    apply elem_of_dom. rewrite (Hat i b Hb). eauto. }
  apply subseteq_size in Hsub.
  rewrite size_list_to_set, size_dom in Hsub by done.
  unfold keys in Hsub. by rewrite length_fmap, length_seq in Hsub.
Qed.

End EncodeFacts.

(** X18.  The frames captured into a fresh directory, from sequence number
    1 on, are the input of the day's video, all of them and in the order of
    their capture: the names [capture_frame] writes are the names the
    encoder's pattern [%06d.jpg] reads from [-start_number 1] on. *)
Theorem captured_frames_are_encoded_in_order (cfg : Config) (env : Env)
    (frames : list frame) (self : Daemon) (w : World) (out_mp4 : path) (fps : Z) :
  seq self = 1 →
  (∀ name, fs w !! (current_dir self // name) = None) →
  (∀ i f, frames !! i = Some f → cam_read_at env (n_read w + i) = Some f) →
  (∀ i, (i < length frames)%nat → imwrite_at env (n_imwrite w + i) = Written) →
  frames ≠ [] →
  proc_at env (n_proc w) = ExitZero →
  ∃ self' w1 w2,
    exec env (captures (length frames) self) w = (Returned self', w1)
    ∧ exec env (make_video_from_images cfg (current_dir self) out_mp4 fps) w1
      = (Returned tt, w2)
    ∧ fs w2 = <[out_mp4 := ff_encode env fps (jpeg_encode env 85 <$> frames)]> (fs w1).
Proof.
  intros Hseq Hfresh Hcam Hwr Hne Hproc.
  destruct (captures_exec env frames self w Hcam Hwr) as (w1 & Hex & Hfs & _).
  pose proof (captures_n_proc env (length frames) self w) as Hnp.
  rewrite Hex in Hnp. simpl in Hnp. rewrite Hseq in Hfs.
  assert (∀ i b, (jpeg_encode env 85 <$> frames) !! i = Some b →
            fs w1 !! (current_dir self // frame_name (1 + Z.of_nat i)) = Some b) as Hat.
  { intros i b Hb. apply list_lookup_fmap_Some in Hb as (f & -> & Hf).
    rewrite Hfs. apply store_frames_at; [lia | done]. }
  assert (image_sequence (fs w1) (current_dir self) (size (fs w1)) 1
          = jpeg_encode env 85 <$> frames) as Hseqn.
  { apply image_sequence_run; [exact Hat| |by apply (frames_fit _ (current_dir self) _ 1)].
    rewrite Hfs, store_frames_other; [apply Hfresh|].
    intros i Hi Heq. rewrite length_fmap in Heq.
    apply path_join_inj, frame_name_inj in Heq; lia. }
  set (encode := FfmpegImages fps (current_dir self) (VIDEO_CODEC cfg)
                   (VIDEO_PRESET cfg) (CRF cfg) out_mp4).
  set (w0 := emit (Log INFO (MsgMakingVideo (current_dir self) out_mp4)) tt w1).
  assert (exec env (make_video_from_images cfg (current_dir self) out_mp4 fps) w1
          = (Returned tt,
             emit (SubprocessRun encode) true
               (set_fs (<[out_mp4 := ff_encode env fps (jpeg_encode env 85 <$> frames)]>
                          (fs w1))
                  (next_proc w0)))) as Hmk.
  { unfold make_video_from_images. rewrite exec_bind, exec_call.
    simpl answer. cbn [fst snd]. unfold subprocess_run. cbn [exec]. unfold perform.
    cbn [answer run_command]. simpl fs. simpl n_proc. rewrite Hseqn, Hnp, Hproc.
    by destruct frames as [|f frames]. }
  eexists _, w1, _. split; [exact Hex|]. split; [exact Hmk | done].
Qed.

Lemma captured_frames_are_encoded_in_order_witness :
  let env := Scenario.with_camera
               (λ n, if (n =? 0)%nat then Some [Byte.x01] else Some [Byte.x02])
               Scenario.all_well in
  let out := ["data"; "videos"; "2024-01-01.mp4"] in
  ∃ self' w1 w2,
    exec env (captures 2 Scenario.fresh_daemon) (Scenario.world ∅) = (Returned self', w1)
    ∧ exec env (make_video_from_images Scenario.cfg
                  (current_dir Scenario.fresh_daemon) out 30) w1
      = (Returned tt, w2)
    ∧ fs w2 !! out = Some [Byte.x01; Byte.x02].
Proof.
  intros env out.
  destruct (captured_frames_are_encoded_in_order Scenario.cfg env
              [[Byte.x01]; [Byte.x02]] Scenario.fresh_daemon (Scenario.world ∅) out 30)
    as (self' & w1 & w2 & Hex & Hmk & Hfs).
  - reflexivity.
  - intros name. apply lookup_empty.
  - intros [|[|i]] f Hf; simpl in Hf; by simplify_eq.
  - intros i _. reflexivity.
  - discriminate.
  - reflexivity.
  - exists self', w1, w2. split; [exact Hex|]. split; [exact Hmk|].
    rewrite Hfs. apply lookup_insert_eq.
Defined.

(** Calls that start no job hand over no day. *)
Lemma calm_dispatched_days (dir : path) (evs : list event) :
  Forall (calm dir) evs → dispatched_days evs = [].
Proof.
  induction 1 as [|ev evs (_ & Hday & _) _ IH]; [done|].
  unfold dispatched_days in *. simpl. by rewrite Hday.
Qed.

(** X19.  A turn of the loop that finds the date unchanged starts no
    finalization job and keeps the bucket: when [cv2.imwrite] does not
    raise, the turn returns, the day and the directory are as before, the
    sequence number is as before or one more, and no file changes other
    than the frame file of the current sequence number. *)
Theorem same_day_turn (cfg : Config) (env : Env) (self : Daemon) (w : World) :
  today_at env (n_today w) = current_day self →
  imwrite_at env (n_imwrite w) ≠ WriteRaises →
  ∃ self' w' evs,
    exec env (iteration cfg self) w = (Returned self', w')
    ∧ current_day self' = current_day self
    ∧ current_dir self' = current_dir self
    ∧ (seq self' = seq self ∨ seq self' = seq self + 1)
    ∧ trace w' = trace w ++ evs
    ∧ dispatched_days evs = []
    ∧ ∀ q, q ≠ current_dir self // frame_name (seq self) → fs w' !! q = fs w !! q.
Proof.
  intros Hday Hnoraise. rewrite iteration_same_day by done.
  set (w0 := emit DateToday (today_at env (n_today w)) (next_today w)).
  change (n_imwrite w) with (n_imwrite w0) in Hnoraise.
  destruct (cam_read_at env (n_read w0)) as [f|] eqn:Hr.
  - destruct (imwrite_at env (n_imwrite w0)) as [|partial|] eqn:Hi; [| |done].
    + rewrite (capture_frame_written env self w0 f Hr Hi).
      match goal with |- context [exec env (wait ?n ?s) ?w1] =>
        destruct (wait_calm env s n (current_dir self) w1)
          as (w2 & rest & Hex & Htr & Hcalm & _);
        pose proof (wait_fs env s n w1) as Hfs
      end.
      rewrite Hex in Hfs |- *. simpl in Hfs.
      eexists _, w2, _. split; [reflexivity|].
      split; [done|]. split; [done|]. split; [by right|]. split.
      { rewrite Htr. simpl. rewrite <- !app_assoc. reflexivity. }
      split.
      { unfold dispatched_days. rewrite !omap_app.
        fold (dispatched_days rest). by rewrite (calm_dispatched_days _ _ Hcalm). }
      intros q Hq. rewrite Hfs. by rewrite lookup_insert_ne.
    + rewrite (capture_frame_not_written env self w0 f partial Hr Hi).
      match goal with |- context [exec env (wait ?n ?s) ?w1] =>
        destruct (wait_calm env s n (current_dir self) w1)
          as (w2 & rest & Hex & Htr & Hcalm & _);
        pose proof (wait_fs env s n w1) as Hfs
      end.
      rewrite Hex in Hfs |- *. simpl in Hfs.
      eexists _, w2, _. split; [reflexivity|].
      split; [done|]. split; [done|]. split; [by right|]. split.
      { rewrite Htr. simpl. rewrite <- !app_assoc. reflexivity. }
      split.
      { unfold dispatched_days. rewrite !omap_app.
        fold (dispatched_days rest). by rewrite (calm_dispatched_days _ _ Hcalm). }
      intros q Hq. rewrite Hfs. destruct partial; simpl; [|done].
      by rewrite lookup_insert_ne.
  - rewrite (capture_frame_no_frame env self w0 Hr).
    match goal with |- context [exec env (wait ?n ?s) ?w1] =>
      destruct (wait_calm env s n (current_dir self) w1)
        as (w2 & rest & Hex & Htr & Hcalm & _);
      pose proof (wait_fs env s n w1) as Hfs
    end.
    rewrite Hex in Hfs |- *. simpl in Hfs.
    eexists _, w2, _. split; [reflexivity|].
    split; [done|]. split; [done|]. split; [by left|]. split.
    { rewrite Htr. simpl. rewrite <- !app_assoc. reflexivity. }
    split.
    { unfold dispatched_days. rewrite !omap_app.
      fold (dispatched_days rest). by rewrite (calm_dispatched_days _ _ Hcalm). }
    intros q Hq. by rewrite Hfs.
Qed.

Lemma same_day_turn_witness :
  ∃ self' w' evs,
    exec Scenario.all_well (iteration Scenario.cfg Scenario.fresh_daemon)
      (Scenario.world ∅) = (Returned self', w')
    ∧ current_dir self' = ["data"; "images"; "2024-01-01"]
    ∧ trace w' = evs
    ∧ dispatched_days evs = [].
Proof.
  destruct (same_day_turn Scenario.cfg Scenario.all_well Scenario.fresh_daemon
              (Scenario.world ∅))
    as (self' & w' & evs & Hex & _ & Hdir & _ & Htr & Hnone & _).
  - reflexivity.
  - discriminate.
  - exists self', w', evs. split; [exact Hex|]. split; [exact Hdir|].
    split; [exact Htr | exact Hnone].
Defined.

(** ** Merges in two threads *)

Ltac run_threads := repeat (progress (simpl; unfold step, perform; simpl)).

(** The calls of two merges in the order [overlapping], over the names of
    their seven files. *)
Lemma overlapping_merges (env : Env) (master d1 d2 ts_m ts_1 ts_2 temp : path)
    (w : World) (m a b : bytes) :
  PurePath.with_suffix master ".ts" = ts_m →
  PurePath.with_suffix d1 ".ts" = ts_1 →
  PurePath.with_suffix d2 ".ts" = ts_2 →
  PurePath.with_suffix master ".new.mp4" = temp →
  NoDup [master; d1; d2; ts_m; ts_1; ts_2; temp] →
  fs w !! master = Some m →
  fs w !! d1 = Some a →
  fs w !! d2 = Some b →
  (∀ i, (i < 6)%nat → proc_at env (n_proc w + i) = ExitZero) →
  ∃ w',
    interleave env overlapping [merge_thread master d1; merge_thread master d2] w
    = ([Ret tt; Ret tt], w')
    ∧ fs w' !! master = Some (ff_concat env [ff_to_ts env m; ff_to_ts env b])
    ∧ fs w' !! d1 = Some a.
Proof.
  intros Htsm Hts1 Hts2 Htemp Hnd Hm Ha Hb Hok.
  pose proof (Hok 0%nat ltac:(lia)) as Hp0. rewrite Nat.add_0_r in Hp0.
  pose proof (Hok 1%nat ltac:(lia)) as Hp1. rewrite Nat.add_1_r in Hp1.
  pose proof (Hok 2%nat ltac:(lia)) as Hp2.
  replace (n_proc w + 2)%nat with (S (S (n_proc w))) in Hp2 by lia.
  pose proof (Hok 3%nat ltac:(lia)) as Hp3.
  replace (n_proc w + 3)%nat with (S (S (S (n_proc w)))) in Hp3 by lia.
  pose proof (Hok 4%nat ltac:(lia)) as Hp4.
  replace (n_proc w + 4)%nat with (S (S (S (S (n_proc w))))) in Hp4 by lia.
  pose proof (Hok 5%nat ltac:(lia)) as Hp5.
  replace (n_proc w + 5)%nat with (S (S (S (S (S (n_proc w)))))) in Hp5 by lia.
  apply NoDup_cons in Hnd as [H1 Hnd]. apply NoDup_cons in Hnd as [H2 Hnd].
  apply NoDup_cons in Hnd as [H3 Hnd]. apply NoDup_cons in Hnd as [H4 Hnd].
  apply NoDup_cons in Hnd as [H5 Hnd]. apply NoDup_cons in Hnd as [H6 _].
  repeat rewrite not_elem_of_cons in H1. repeat rewrite not_elem_of_cons in H2.
  repeat rewrite not_elem_of_cons in H3. repeat rewrite not_elem_of_cons in H4.
  repeat rewrite not_elem_of_cons in H5. repeat rewrite not_elem_of_cons in H6.
  destruct H1 as (? & ? & ? & ? & ? & ? & _).
  destruct H2 as (? & ? & ? & ? & ? & _).
  destruct H3 as (? & ? & ? & ? & _).
  destruct H4 as (? & ? & ? & _).
  destruct H5 as (? & ? & _). destruct H6 as (? & _).
  unfold overlapping, merge_thread, merge_daily_into_master, concat_videos_fast.
  cbn [remux_all]. rewrite Htsm, Hts1, Hts2, Htemp.
  repeat (progress (run_threads; map_lookup;
                    rewrite ?Hm, ?Ha, ?Hb, ?Hp0, ?Hp1, ?Hp2, ?Hp3, ?Hp4, ?Hp5)).
  eexists. split; [reflexivity|]. simpl. split; by map_lookup.
Qed.

(** The seven files of two merges, of the videos of two days, have seven
    names. *)
Lemma two_merges_names_distinct (dir : path) (day1 day2 : date) :
  valid_date day1 → valid_date day2 → day1 ≠ day2 →
  NoDup [dir // "master.mp4"; dir // daily_name day1; dir // daily_name day2;
         dir // "master.ts"; dir // daily_ts_name day1; dir // daily_ts_name day2;
         dir // "master.new.mp4"].
Proof.
  intros Hd1 Hd2 Hne.
  change (NoDup (path_join dir <$> ["master.mp4"; daily_name day1; daily_name day2;
                                    "master.ts"; daily_ts_name day1;
                                    daily_ts_name day2; "master.new.mp4"])).
  apply NoDup_fmap_2; [intros a b; apply path_join_inj|].
  pose proof (daily_name_length day1 Hd1) as Hl1.
  pose proof (daily_ts_name_length day1 Hd1) as Hl2.
  pose proof (daily_name_length day2 Hd2) as Hl3.
  pose proof (daily_ts_name_length day2 Hd2) as Hl4.
  pose proof (daily_name_not_temp day1 Hd1) as Hnt1.
  pose proof (daily_name_not_temp day2 Hd2) as Hnt2.
  assert (daily_name day1 ≠ daily_name day2) as Hn1.
  { intros Heq. by apply daily_name_inj in Heq. }
  assert (daily_ts_name day1 ≠ daily_ts_name day2) as Hn2.
  { unfold daily_ts_name. intros Heq.
    apply FmtFacts.string_app_inj_length in Heq as [Heq _];
      [by apply isoformat_inj in Heq | by rewrite !isoformat_length]. }
  repeat (apply NoDup_cons; split); try apply NoDup_nil_2;
    repeat rewrite not_elem_of_cons; repeat split; try apply not_elem_of_nil;
    try done;
    intros Heq; apply (f_equal String.length) in Heq;
    rewrite ?Hl1, ?Hl2, ?Hl3, ?Hl4 in Heq; by simpl in Heq.
Qed.

(** X20.  Nothing orders the merges of two threads.  When their calls
    overlap as in [overlapping], both merges return, and the master holds
    the old master followed by the second day's video only: the first day's
    video, although merged without error, is not in the master. *)
Theorem overlapping_merges_lose_a_day (cfg : Config) (env : Env) (day1 day2 : date)
    (w : World) (m a b : bytes) :
  let master := VIDEOS_DIR cfg // "master.mp4" in
  let daily1 := VIDEOS_DIR cfg // daily_name day1 in
  let daily2 := VIDEOS_DIR cfg // daily_name day2 in
  valid_date day1 → valid_date day2 → day1 ≠ day2 →
  fs w !! master = Some m →
  fs w !! daily1 = Some a →
  fs w !! daily2 = Some b →
  (∀ i, (i < 6)%nat → proc_at env (n_proc w + i) = ExitZero) →
  ∃ w',
    interleave env overlapping [merge_thread master daily1; merge_thread master daily2] w
    = ([Ret tt; Ret tt], w')
    ∧ fs w' !! master = Some (ff_concat env [ff_to_ts env m; ff_to_ts env b])
    ∧ fs w' !! daily1 = Some a.
Proof.
  intros master daily1 daily2 Hd1 Hd2 Hne Hm Ha Hb Hok.
  apply (overlapping_merges env master daily1 daily2
           (VIDEOS_DIR cfg // "master.ts") (VIDEOS_DIR cfg // daily_ts_name day1)
           (VIDEOS_DIR cfg // daily_ts_name day2) (VIDEOS_DIR cfg // "master.new.mp4"));
    try done.
  - unfold master. by rewrite with_suffix_join, master_ts_name.
  - unfold daily1. by rewrite with_suffix_daily.
  - unfold daily2. by rewrite with_suffix_daily.
  - unfold master. by rewrite with_suffix_join, master_new_name.
  - by apply two_merges_names_distinct.
Qed.

Lemma overlapping_merges_lose_a_day_witness :
  let master := ["data"; "videos"; "master.mp4"] in
  let daily1 := ["data"; "videos"; "2024-01-01.mp4"] in
  let daily2 := ["data"; "videos"; "2024-01-02.mp4"] in
  let w := Scenario.world
             {[ master := [Byte.x00]; daily1 := [Byte.x01]; daily2 := [Byte.x02] ]} in
  ∃ w',
    interleave Scenario.all_well overlapping
      [merge_thread master daily1; merge_thread master daily2] w
    = ([Ret tt; Ret tt], w')
    ∧ fs w' !! master = Some [Byte.x00; Byte.x02].
Proof.
  intros master daily1 daily2 w.
  destruct (overlapping_merges_lose_a_day Scenario.cfg Scenario.all_well Scenario.day1
              Scenario.day2 w [Byte.x00] [Byte.x01] [Byte.x02])
    as (w' & Hex & Hmaster & _).
  - vm_compute. repeat split; discriminate.
  - vm_compute. repeat split; discriminate.
  - discriminate.
  - reflexivity.
  - reflexivity.
  - reflexivity.
  - reflexivity.
  - exists w'. split; [exact Hex | exact Hmaster].
Defined.

(** X21.  The first job of an installation whose notifier is not
    configured: with frames numbered from 1 in the day's directory, no
    master yet, and an encoder and a copy that succeed, the job returns
    having made the day's video from these frames and a master that is a
    copy of it; nothing else changes and the transport is not called. *)
Theorem first_job_builds_daily_and_master (cfg : Config) (env : Env) (day : date)
    (dirpath : path) (w : World) (frames : list bytes) :
  let daily := VIDEOS_DIR cfg // daily_name day in
  let master := VIDEOS_DIR cfg // "master.mp4" in
  let video := ff_encode env (DAILY_FPS cfg) frames in
  valid_date day →
  not_configured cfg = true →
  frames ≠ [] →
  (∀ i b, frames !! i = Some b →
     fs w !! (dirpath // frame_name (1 + Z.of_nat i)) = Some b) →
  fs w !! (dirpath // frame_name (1 + Z.of_nat (length frames))) = None →
  fs w !! master = None →
  (∀ i, (i < 2)%nat → proc_at env (n_proc w + i) = ExitZero) →
  ∃ w',
    exec env (job cfg day dirpath) w = (Returned tt, w')
    ∧ fs w' = <[master := video]> (<[daily := video]> (fs w))
    ∧ n_send w' = n_send w.
Proof.
  intros daily master video Hd Hcfg Hne Hat Hend Hm Hok.
  pose proof (Hok 0%nat ltac:(lia)) as Hp0. rewrite Nat.add_0_r in Hp0.
  pose proof (Hok 1%nat ltac:(lia)) as Hp1. rewrite Nat.add_1_r in Hp1.
  assert (image_sequence (fs w) dirpath (size (fs w)) 1 = frames) as Hseqn.
  { apply image_sequence_run; [done..|]. by apply (frames_fit _ dirpath _ 1). }
  assert (master ≠ daily) as Hmd.
  { intros Heq. apply path_join_inj, (f_equal String.length) in Heq.
    by rewrite daily_name_length in Heq. }
  unfold job, make_video_from_images, send_file_telegram, merge_daily_into_master,
    subprocess_run. rewrite Hcfg.
  fold (daily_name day). fold daily master.
  run_exec. rewrite Hseqn, Hp0.
  destruct frames as [|f frames]; [done|]. run_exec.
  rewrite lookup_insert_ne, Hm by done. run_exec.
  rewrite lookup_insert_eq, Hp1. run_exec.
  eexists. split; [reflexivity|]. done.
Qed.

Lemma first_job_builds_daily_and_master_witness :
  let frame1 := ["data"; "images"; "2024-01-01"; "000001.jpg"] in
  let frame2 := ["data"; "images"; "2024-01-01"; "000002.jpg"] in
  let w := Scenario.world {[ frame1 := [Byte.x01]; frame2 := [Byte.x02] ]} in
  ∃ w',
    exec Scenario.all_well
      (job Scenario.cfg Scenario.day1 ["data"; "images"; "2024-01-01"]) w
    = (Returned tt, w')
    ∧ fs w' !! ["data"; "videos"; "2024-01-01.mp4"] = Some [Byte.x01; Byte.x02]
    ∧ fs w' !! ["data"; "videos"; "master.mp4"] = Some [Byte.x01; Byte.x02].
Proof.
  intros frame1 frame2 w.
  destruct (first_job_builds_daily_and_master Scenario.cfg Scenario.all_well
              Scenario.day1 ["data"; "images"; "2024-01-01"] w
              [[Byte.x01]; [Byte.x02]])
    as (w' & Hex & Hfs & _).
  - vm_compute. repeat split; discriminate.
  - reflexivity.
  - discriminate.
  - intros [|[|i]] b Hb; simpl in Hb; simplify_eq; reflexivity.
  - reflexivity.
  - reflexivity.
  - reflexivity.
  - exists w'. split; [exact Hex|]. rewrite Hfs. split; reflexivity.
Defined.

Section TwoDays.

Lemma two_day_clock_valid (i : nat) : valid_date (today_at two_days i).
Proof.
  simpl. unfold two_day_clock. destruct (i <? 3)%nat; vm_compute;
    repeat split; discriminate.
Qed.

Lemma two_day_clock_monotone (i j : nat) :
  (i ≤ j)%nat → date_le (today_at two_days i) (today_at two_days j).
Proof.
  intros Hij. simpl. unfold two_day_clock.
  destruct (Nat.ltb_spec i 3), (Nat.ltb_spec j 3); try lia.
  - by left.
  - right. unfold date_lt. simpl. lia.
  - by left.
Qed.

End TwoDays.

(** X5.  While the dates the clock shows never decrease, no frame is ever
    written into a directory after that directory has been handed to a
    finalization job, over any number of turns of the loop from a fresh
    daemon. *)
Theorem dispatched_directories_stay_frozen (cfg : Config) (env : Env) (w : World)
    (turns : nat) :
  (∀ i, valid_date (today_at env i)) →
  (∀ i j, (i ≤ j)%nat → date_le (today_at env i) (today_at env j)) →
  trace w = [] →
  ∃ self w1,
    exec env (init cfg) w = (Returned self, w1)
    ∧ no_write_after_dispatch []
        (trace (exec env (run_loop cfg turns (set_running true self)) w1).2).
Proof.
  intros Hvalid Hmono Hnil.
  destruct (init_inv cfg env Hvalid Hmono w Hnil) as (self & w1 & Hinit & _ & Hinv).
  exists self, w1. split; [exact Hinit|].
  destruct (run_loop_inv cfg env Hvalid Hmono turns _ _ Hinv)
    as (self' & _ & _ & _ & _ & Hnw & _).
  exact Hnw.
Qed.

Lemma dispatched_directories_stay_frozen_witness :
  ∃ self w1,
    exec two_days (init Scenario.cfg) (Scenario.world ∅) = (Returned self, w1)
    ∧ no_write_after_dispatch []
        (trace (exec two_days (run_loop Scenario.cfg 3 (set_running true self)) w1).2).
Proof.
  apply (dispatched_directories_stay_frozen Scenario.cfg two_days (Scenario.world ∅) 3).
  - apply two_day_clock_valid.
  - apply two_day_clock_monotone.
  - reflexivity.
Defined.

(** X6.  While the dates the clock shows never decrease, the days handed
    to finalization jobs are handed over in strictly increasing order: each
    day at most once, an earlier day before a later one. *)
Theorem days_dispatched_in_order (cfg : Config) (env : Env) (w : World)
    (turns : nat) :
  (∀ i, valid_date (today_at env i)) →
  (∀ i j, (i ≤ j)%nat → date_le (today_at env i) (today_at env j)) →
  trace w = [] →
  ∃ self w1,
    exec env (init cfg) w = (Returned self, w1)
    ∧ StronglySorted date_lt
        (dispatched_days
           (trace (exec env (run_loop cfg turns (set_running true self)) w1).2)).
Proof.
  intros Hvalid Hmono Hnil.
  destruct (init_inv cfg env Hvalid Hmono w Hnil) as (self & w1 & Hinit & _ & Hinv).
  exists self, w1. split; [exact Hinit|].
  destruct (run_loop_inv cfg env Hvalid Hmono turns _ _ Hinv)
    as (self' & _ & _ & _ & _ & _ & Hsorted & _).
  exact Hsorted.
Qed.

Lemma days_dispatched_in_order_witness :
  ∃ self w1,
    exec two_days (init Scenario.cfg) (Scenario.world ∅) = (Returned self, w1)
    ∧ StronglySorted date_lt
        (dispatched_days
           (trace (exec two_days (run_loop Scenario.cfg 3 (set_running true self)) w1).2)).
Proof.
  apply (days_dispatched_in_order Scenario.cfg two_days (Scenario.world ∅) 3).
  - apply two_day_clock_valid.
  - apply two_day_clock_monotone.
  - reflexivity.
Defined.

Example format_0d_1 : Fmt.format_0d 6 1 = "000001".
Proof. reflexivity. Qed.

Example format_0d_123456 : Fmt.format_0d 6 123456 = "123456".
Proof. reflexivity. Qed.

Example format_0d_neg : Fmt.format_0d 6 (-42) = "-00042".
Proof. reflexivity. Qed.

Example isoformat_ex : isoformat (Date 2024 3 9) = "2024-03-09".
Proof. reflexivity. Qed.
